(** * The write-ahead log of raiden/storage/wal.py

    A shallow embedding of [raiden.storage.wal]: the recovery functions
    [restore_or_init_snapshot], [replay_unapplied_state_changes] and
    [restore_state], and the [WriteAheadLog] class with its commit scope
    [process_state_change_atomically] and [snapshot].

    Python objects that are mutated in place (the storage, the state
    manager, the dispatcher, the log itself) are threaded explicitly; a
    call that can raise returns a [result]; a call that waits on the
    semaphore returns [None] when the semaphore is taken. *)

From Stdlib Require Import List Bool NArith ZArith Lia String.
From Stdlib Require Import Sorting.Sorted Sorting.Permutation.
Import ListNotations.

Set Implicit Arguments.

(** ** Exceptions and results *)

(** The exceptions the module can let escape.  [Raised tag] stands for
    whatever caller-supplied code raises: the transition function or the
    body of a commit scope. *)
Inductive exception : Type :=
| AttributeError (attribute : string)
| AssertionError (message : string)
| Raised (tag : nat).

Inductive result (A : Type) : Type :=
| Ok (a : A)
| Raise (e : exception).

Arguments Ok {A} a.
Arguments Raise {A} e.

Definition bind {A B : Type} (r : result A) (k : A -> result B) : result B :=
  match r with
  | Ok a => k a
  | Raise e => Raise e
  end.

Declare Scope wal_scope.
Delimit Scope wal_scope with wal.
Notation "x <- c ;; k" := (bind c (fun x => k))
  (at level 61, c at next level, right associativity) : wal_scope.

(** ** Identifiers *)

(** Modelled from the spec: the identifiers of raiden/storage/sqlite.py
    (ULID, StateChangeID, EventID), which is not part of the sources.
    Identifiers are totally ordered; the [n]-th identifier a factory
    issues is [ULID_issued n]; the two sentinels are outside the range a
    factory issues, LOW before every issued identifier and HIGH after. *)
Inductive ULID : Type :=
| ULID_LOW
| ULID_issued (n : N)
| ULID_HIGH.

Abbreviation StateChangeID := ULID.
Abbreviation EventID := ULID.

(** Modelled from the spec: the constant LOW_STATECHANGE_ULID of
    raiden/storage/sqlite.py, the sentinel that precedes every
    identifier. *)
Definition LOW_STATECHANGE_ULID : StateChangeID := ULID_LOW.

(** Modelled from the spec: the constant HIGH_STATECHANGE_ULID of
    raiden/storage/sqlite.py, the sentinel that succeeds every
    identifier. *)
Definition HIGH_STATECHANGE_ULID : StateChangeID := ULID_HIGH.

(** Modelled from the spec: the total order of the identifiers, as the
    comparison the storage queries use. *)
Definition ulid_leb (a b : ULID) : bool :=
  match a, b with
  | ULID_LOW, _ => true
  | _, ULID_HIGH => true
  | ULID_issued x, ULID_issued y => (x <=? y)%N
  | _, _ => false
  end.

(** Modelled from the spec: the strict order of the identifiers. *)
Definition ulid_ltb (a b : ULID) : bool := negb (ulid_leb b a).

(** The two orders as propositions. *)
Definition ulid_le (a b : ULID) : Prop := ulid_leb a b = true.

Definition ulid_lt (a b : ULID) : Prop := ulid_ltb a b = true.

(** Modelled from the spec: the truth value of an identifier in
    [if state_change_id and ...].  The identifier class is not part of the
    sources; the only undefined identifier the spec knows is the one of a
    log that never committed, which is the unset attribute and not a
    value, so every identifier object is true. *)
Definition ulid_truth (u : ULID) : bool := true.

(** Modelled from the spec: [Range(first, last)] of
    raiden/storage/sqlite.py, the two bounds of a query. *)
Record Range : Type := mkRange { first : StateChangeID; last : StateChangeID }.

(** Modelled from the spec: the identifiers a range selects, the ones
    after [first] up to and including [last]. *)
Definition in_range (r : Range) (u : StateChangeID) : bool :=
  ulid_ltb (first r) u && ulid_leb u (last r).

Section WAL.

(** The payloads are opaque: the state, the state changes and the events
    belong to the caller, the serialized form to the serializer. *)
Context {State StateChange Event Payload Address : Type}.

(** ** The durable store

    raiden/storage/sqlite.py and raiden/storage/serialization.py are not
    part of the sources: the store below follows the contract the spec
    gives for it.  It keeps three tables that only grow; a transaction
    stages a copy of the tables that replaces the durable ones at commit
    and is dropped at rollback; the identifier factories issue
    increasing identifiers and never take one back. *)

(** Modelled from the spec: a row of the snapshot table, what
    [get_snapshot_before_state_change] returns. *)
Record SnapshotRecord : Type := mkSnapshotRecord {
  snapshot_data : State;
  snapshot_state_change_identifier : StateChangeID;
  snapshot_state_change_qty : Z
}.

(** Modelled from the spec: the three tables of the store, each in the
    order its rows were written. *)
Record Tables : Type := mkTables {
  state_changes : list (StateChangeID * Payload);
  state_events : list (EventID * StateChangeID * Payload);
  state_snapshot : list SnapshotRecord
}.

(** Modelled from the spec: the database connection, with the durable
    tables, the tables staged by the open transaction if there is one,
    and the number of identifiers each factory has issued. *)
Record Database : Type := mkDatabase {
  durable : Tables;
  staged : option Tables;
  issued_state_changes : N;
  issued_events : N
}.

(** Modelled from the spec: the serializer of the storage. *)
Record Serializer : Type := mkSerializer {
  serialize_state_change : StateChange -> Payload;
  serialize_event : Event -> Payload;
  deserialize_state_change : Payload -> StateChange
}.

(** Modelled from the spec: [SerializedSQLiteStorage], a database and
    the serializer for what goes in and out of it. *)
Record SerializedSQLiteStorage : Type := mkStorage {
  serializer : Serializer;
  database : Database
}.

(** Modelled from the spec: the tables a statement reads and writes, the
    staged ones inside a transaction, the durable ones outside. *)
Definition current_tables (db : Database) : Tables :=
  match staged db with
  | Some t => t
  | None => durable db
  end.

(** Modelled from the spec: a statement replaces the tables it works
    on. *)
Definition set_tables (db : Database) (t : Tables) : Database :=
  match staged db with
  | Some _ => mkDatabase (durable db) (Some t)
                (issued_state_changes db) (issued_events db)
  | None => mkDatabase t None (issued_state_changes db) (issued_events db)
  end.

(** Modelled from the spec: entering [database.transaction()]. *)
Definition begin_transaction (db : Database) : Database :=
  mkDatabase (durable db) (Some (current_tables db))
    (issued_state_changes db) (issued_events db).

(** Modelled from the spec: leaving [database.transaction()] normally;
    what was staged becomes durable. *)
Definition commit (db : Database) : Database :=
  mkDatabase (current_tables db) None
    (issued_state_changes db) (issued_events db).

(** Modelled from the spec: leaving [database.transaction()] by an
    exception; what was staged is dropped. *)
Definition rollback (db : Database) : Database :=
  mkDatabase (durable db) None (issued_state_changes db) (issued_events db).

(** Modelled from the spec: [database._ulid_factory(StateChangeID)()],
    an identifier after every state change identifier issued so far. *)
Definition next_state_change_ulid (db : Database) : StateChangeID * Database :=
  let n := N.succ (issued_state_changes db) in
  (ULID_issued n, mkDatabase (durable db) (staged db) n (issued_events db)).

(** Modelled from the spec: [database._ulid_factory(EventID)()], an
    identifier after every event identifier issued so far. *)
Definition next_event_ulid (db : Database) : EventID * Database :=
  let n := N.succ (issued_events db) in
  (ULID_issued n, mkDatabase (durable db) (staged db) (issued_state_changes db) n).

(** Modelled from the spec: one more row at the end of a table. *)
Definition insert_state_change (t : Tables) (row : StateChangeID * Payload)
  : Tables :=
  mkTables (state_changes t ++ [row]) (state_events t) (state_snapshot t).

(** Modelled from the spec: one more row at the end of the event
    table. *)
Definition insert_event (t : Tables) (row : EventID * StateChangeID * Payload)
  : Tables :=
  mkTables (state_changes t) (state_events t ++ [row]) (state_snapshot t).

(** Modelled from the spec: one more row at the end of the snapshot
    table. *)
Definition insert_snapshot (t : Tables) (row : SnapshotRecord) : Tables :=
  mkTables (state_changes t) (state_events t) (state_snapshot t ++ [row]).

(** Modelled from the spec:
    [write_state_change(ulid_factory, cursor, state_change)] of
    raiden/storage/sqlite.py writes the state change under a fresh
    identifier and returns the identifier. *)
Definition write_state_change (db : Database) (state_change : Payload)
  : StateChangeID * Database :=
  let (identifier, db1) := next_state_change_ulid db in
  (identifier,
   set_tables db1 (insert_state_change (current_tables db1)
                     (identifier, state_change))).

(** Modelled from the spec: [write_events(ulid_factory, cursor, events)]
    of raiden/storage/sqlite.py writes every event, in order, under a
    fresh identifier of its own and next to the state change identifier
    it comes with. *)
Fixpoint write_events (db : Database) (events : list (StateChangeID * Payload))
  : Database :=
  match events with
  | [] => db
  | (state_change_id, event) :: rest =>
      let (identifier, db1) := next_event_ulid db in
      write_events
        (set_tables db1 (insert_event (current_tables db1)
                           (identifier, state_change_id, event)))
        rest
  end.

(** The storage with its database replaced. *)
Definition set_database (storage : SerializedSQLiteStorage) (db : Database)
  : SerializedSQLiteStorage :=
  mkStorage (serializer storage) db.

(** Modelled from the spec:
    [storage.write_state_snapshot(snapshot, statechange_id, statechange_qty)]
    adds a snapshot; it never replaces an older one. *)
Definition write_state_snapshot (storage : SerializedSQLiteStorage)
  (snapshot : State) (statechange_id : StateChangeID) (statechange_qty : Z)
  : SerializedSQLiteStorage :=
  let db := database storage in
  set_database storage
    (set_tables db (insert_snapshot (current_tables db)
                      (mkSnapshotRecord snapshot statechange_id statechange_qty))).

(** Modelled from the spec: [storage.write_first_state_snapshot(snapshot)]
    writes the snapshot at the LOW sentinel with count 0. *)
Definition write_first_state_snapshot (storage : SerializedSQLiteStorage)
  (snapshot : State) : SerializedSQLiteStorage :=
  write_state_snapshot storage snapshot LOW_STATECHANGE_ULID 0%Z.

(** Modelled from the spec:
    [storage.get_snapshot_before_state_change(state_change_identifier)],
    the snapshot written last among those whose identifier does not
    exceed the bound, [None] when there is none. *)
Definition get_snapshot_before_state_change (storage : SerializedSQLiteStorage)
  (before : StateChangeID) : option SnapshotRecord :=
  find (fun s => ulid_leb (snapshot_state_change_identifier s) before)
       (rev (state_snapshot (current_tables (database storage)))).

(** Modelled from the spec: the rows of a query come back in ascending
    order of identifier; a row goes before the first row with a greater
    identifier. *)
Fixpoint insert_by_id (row : StateChangeID * Payload)
  (rows : list (StateChangeID * Payload)) : list (StateChangeID * Payload) :=
  match rows with
  | [] => [row]
  | r :: rest =>
      if ulid_ltb (fst row) (fst r) then row :: r :: rest
      else r :: insert_by_id row rest
  end.

(** Modelled from the spec: the rows in ascending order of
    identifier. *)
Definition order_by_id (rows : list (StateChangeID * Payload))
  : list (StateChangeID * Payload) :=
  fold_left (fun sorted row => insert_by_id row sorted) rows [].

(** Modelled from the spec: the state change rows of a range, in
    ascending order of identifier. *)
Definition rows_in_range (t : Tables) (r : Range)
  : list (StateChangeID * Payload) :=
  order_by_id (filter (fun row => in_range r (fst row)) (state_changes t)).

(** Modelled from the spec: [storage.get_statechanges_by_range(db_range)],
    the state changes of the range, deserialized, in ascending order of
    identifier. *)
Definition get_statechanges_by_range (storage : SerializedSQLiteStorage)
  (db_range : Range) : list StateChange :=
  map (fun row => deserialize_state_change (serializer storage) (snd row))
      (rows_in_range (current_tables (database storage)) db_range).

(** ** The state manager

    raiden/transfer/architecture.py is not part of the sources: the
    state manager below follows what the spec says of the transition
    engine. *)

(** Modelled from the spec: a transition function takes the current
    state and a state change and returns the next state and the events,
    or raises.  The current state is [None] for a manager that was never
    primed, which wal.py tests for twice; the state a transition returns
    is a state. *)
Definition TransitionFunction : Type :=
  option State -> StateChange -> result (State * list Event).

(** Modelled from the spec: [StateManager], a transition function and
    the current state. *)
Record StateManager : Type := mkStateManager {
  state_transition : TransitionFunction;
  current_state : option State
}.

(** Modelled from the spec: [StateManager.dispatch(state_change)] runs
    the transition function on the current state, stores the state it
    returns and returns that state and the events; a transition that
    raises leaves the current state as it was. *)
Definition StateManager_dispatch (sm : StateManager) (state_change : StateChange)
  : result (State * list Event) * StateManager :=
  match state_transition sm (current_state sm) state_change with
  | Ok (next_state, events) =>
      (Ok (next_state, events),
       mkStateManager (state_transition sm) (Some next_state))
  | Raise e => (Raise e, sm)
  end.

(** Modelled from the spec: [StateManager.copy()], a manager of its own
    with the same transition function and an equal state. *)
Definition StateManager_copy (sm : StateManager) : StateManager :=
  mkStateManager (state_transition sm) (current_state sm).

(** Modelled from the spec: a manager applies a list of state changes
    in order and drops their events. *)
Fixpoint dispatch_all (sm : StateManager) (state_changes : list StateChange)
  : result StateManager :=
  match state_changes with
  | [] => Ok sm
  | state_change :: rest =>
      match StateManager_dispatch sm state_change with
      | (Ok _, sm1) => dispatch_all sm1 rest
      | (Raise e, _) => Raise e
      end
  end.

(** Modelled from the spec:
    [StateManager(state_transition, current_state, state_changes)], the
    manager primed with [current_state] after it applied the given state
    changes. *)
Definition StateManager_init (transition_function : TransitionFunction)
  (current_state : State) (state_changes : list StateChange)
  : result StateManager :=
  dispatch_all (mkStateManager transition_function (Some current_state))
               state_changes.

(** ** Recovery: the module-level functions of wal.py *)

Local Open Scope wal_scope.

Definition restore_or_init_snapshot (storage : SerializedSQLiteStorage)
  (node_address : Address) (initial_state : State)
  : (State * StateChangeID * Z) * SerializedSQLiteStorage :=
  let state_change_identifier := HIGH_STATECHANGE_ULID in
  let snapshot := get_snapshot_before_state_change storage state_change_identifier in
  match snapshot with
  | Some snapshot =>
      ((snapshot_data snapshot, snapshot_state_change_identifier snapshot,
        snapshot_state_change_qty snapshot),
       storage)
  | None =>
      let storage1 := write_first_state_snapshot storage initial_state in
      ((initial_state, LOW_STATECHANGE_ULID, 0%Z), storage1)
  end.

Definition replay_unapplied_state_changes
  (transition_function : TransitionFunction)
  (storage : SerializedSQLiteStorage)
  (unapplied_state_changes_range : Range)
  (node_address : Address)
  (state_snapshot : State) : result (Z * option State) :=
  let unapplied_state_changes :=
    get_statechanges_by_range storage unapplied_state_changes_range in
  state_manager <-
    StateManager_init transition_function state_snapshot unapplied_state_changes ;;
  Ok (Z.of_nat (List.length unapplied_state_changes), current_state state_manager).

Definition restore_state
  (transition_function : TransitionFunction)
  (storage : SerializedSQLiteStorage)
  (state_change_identifier : StateChangeID)
  (node_address : Address) : result (option State) :=
  let snapshot := get_snapshot_before_state_change storage state_change_identifier in
  match snapshot with
  | None => Ok None
  | Some snapshot =>
      let unapplied_state_changes :=
        get_statechanges_by_range storage
          (mkRange (snapshot_state_change_identifier snapshot)
             state_change_identifier) in
      state_manager <-
        StateManager_init transition_function (snapshot_data snapshot)
          unapplied_state_changes ;;
      Ok (current_state state_manager)
  end.

(** ** The write-ahead log *)

(** [SavedState]: the state and the id of the state change that produced
    it. *)
Record SavedState : Type := mkSavedState {
  state_change_id : StateChangeID;
  state : State
}.

(** [WriteAheadLog].  [saved_state] is [None] as long as the attribute
    has not been assigned; [_lock] is [true] while the semaphore is
    taken. *)
Record WriteAheadLog : Type := mkWriteAheadLog {
  _state_manager : StateManager;
  storage : SerializedSQLiteStorage;
  saved_state : option SavedState;
  _lock : bool
}.

(** [WriteAheadLog.__init__]: assigns [_state_manager], [storage] and a
    fresh semaphore, and nothing else. *)
Definition WriteAheadLog_init (state_manager : StateManager)
  (storage : SerializedSQLiteStorage) : WriteAheadLog :=
  mkWriteAheadLog state_manager storage None false.

Definition set_state_manager (self : WriteAheadLog) (sm : StateManager)
  : WriteAheadLog :=
  mkWriteAheadLog sm (storage self) (saved_state self) (_lock self).

Definition set_storage (self : WriteAheadLog) (st : SerializedSQLiteStorage)
  : WriteAheadLog :=
  mkWriteAheadLog (_state_manager self) st (saved_state self) (_lock self).

Definition set_saved_state (self : WriteAheadLog) (s : SavedState)
  : WriteAheadLog :=
  mkWriteAheadLog (_state_manager self) (storage self) (Some s) (_lock self).

Definition set_lock (self : WriteAheadLog) (taken : bool) : WriteAheadLog :=
  mkWriteAheadLog (_state_manager self) (storage self) (saved_state self) taken.

(** [with self._lock: block]: waits for ever ([None]) when the semaphore
    is taken, otherwise takes it, runs the block and releases it whether
    the block returns or raises. *)
Definition with_lock {A : Type} (self : WriteAheadLog)
  (block : WriteAheadLog -> result A * WriteAheadLog)
  : option (result A * WriteAheadLog) :=
  if _lock self then None
  else
    let (r, self1) := block (set_lock self true) in
    Some (r, set_lock self1 false).

(** [_AtomicStateChangeDispatcher]: the object a commit scope yields.  Its
    state manager is the copy made for the scope and its storage is the
    storage of the log, with the transaction of the scope open. *)
Record _AtomicStateChangeDispatcher : Type := mkDispatcher {
  dispatcher_state_manager : StateManager;
  dispatcher_storage : SerializedSQLiteStorage;
  last_state_change_id : option StateChangeID
}.

Definition write_state_change_and_events (self : _AtomicStateChangeDispatcher)
  (state_change : StateChange) (events : list Event)
  : StateChangeID * _AtomicStateChangeDispatcher :=
  let st := dispatcher_storage self in
  let (state_change_id, db1) :=
    write_state_change (database st)
      (serialize_state_change (serializer st) state_change) in
  let event_data :=
    map (fun event => (state_change_id, serialize_event (serializer st) event))
        events in
  let db2 := write_events db1 event_data in
  (state_change_id,
   mkDispatcher (dispatcher_state_manager self) (set_database st db2)
     (last_state_change_id self)).

Definition dispatch (self : _AtomicStateChangeDispatcher)
  (state_change : StateChange)
  : result (list Event) * _AtomicStateChangeDispatcher :=
  match StateManager_dispatch (dispatcher_state_manager self) state_change with
  | (Ok (_, events), sm) =>
      let self1 :=
        mkDispatcher sm (dispatcher_storage self) (last_state_change_id self) in
      let (state_change_id, self2) :=
        write_state_change_and_events self1 state_change events in
      (Ok events,
       mkDispatcher (dispatcher_state_manager self2) (dispatcher_storage self2)
         (Some state_change_id))
  | (Raise e, sm) =>
      (Raise e,
       mkDispatcher sm (dispatcher_storage self) (last_state_change_id self))
  end.

Definition latest_state (self : _AtomicStateChangeDispatcher) : option State :=
  current_state (dispatcher_state_manager self).

(** The body of a [with wal.process_state_change_atomically() as dispatcher]
    block: caller code that can call the two methods of the dispatcher,
    look at what they return or raise, and finish by falling off the end
    or by raising. *)
Inductive ScopeBody (A : Type) : Type :=
| Done (a : A)
| Throw (e : exception)
| Dispatch (state_change : StateChange)
    (k : result (list Event) -> ScopeBody A)
| LatestState (k : option State -> ScopeBody A).

Arguments Done {A} a.
Arguments Throw {A} e.
Arguments Dispatch {A} state_change k.
Arguments LatestState {A} k.

Fixpoint run_body {A : Type} (body : ScopeBody A)
  (dispatcher : _AtomicStateChangeDispatcher)
  : result A * _AtomicStateChangeDispatcher :=
  match body with
  | Done a => (Ok a, dispatcher)
  | Throw e => (Raise e, dispatcher)
  | Dispatch state_change k =>
      let (r, dispatcher1) := dispatch dispatcher state_change in
      run_body (k r) dispatcher1
  | LatestState k => run_body (k (latest_state dispatcher)) dispatcher
  end.

(** The dispatcher a commit scope yields when it is opened on [self]: the
    state manager is copied, the transaction is begun on the storage of
    the log and no state change has been seen. *)
Definition yielded_dispatcher (self : WriteAheadLog)
  : _AtomicStateChangeDispatcher :=
  let copied_state_manager := StateManager_copy (_state_manager self) in
  (* with self.storage.database.transaction(): *)
  let st := set_database (storage self)
              (begin_transaction (database (storage self))) in
  mkDispatcher copied_state_manager st None.

(** [WriteAheadLog.process_state_change_atomically], run with the body of
    the [with] block that uses it.  The state manager of the dispatcher
    is the object [copied_state_manager] names, and its storage is the
    object [self.storage] names: what the body did to them is read back
    from the dispatcher. *)
Definition process_state_change_atomically {A : Type} (self : WriteAheadLog)
  (body : ScopeBody A) : option (result A * WriteAheadLog) :=
  with_lock self (fun self =>
    let dispatcher := yielded_dispatcher self in
    let (r, dispatcher1) := run_body body dispatcher in
    let st1 := dispatcher_storage dispatcher1 in
    match r with
    | Raise e =>
        (Raise e, set_storage self (set_database st1 (rollback (database st1))))
    | Ok a =>
        let self1 := set_storage self (set_database st1 (commit (database st1))) in
        let self2 := set_state_manager self1 (dispatcher_state_manager dispatcher1) in
        match last_state_change_id dispatcher1 with
        | Some last_id =>
            match current_state (_state_manager self2) with
            | Some current =>
                (Ok a, set_saved_state self2 (mkSavedState last_id current))
            | None => (Raise (AssertionError "state is None"), self2)
            end
        | None => (Ok a, self2)
        end
    end).

(** [WriteAheadLog.snapshot]: the block under the semaphore, then the
    method. *)
Definition snapshot_block (self : WriteAheadLog) (statechange_qty : Z)
  : result unit * WriteAheadLog :=
  let current := current_state (_state_manager self) in
  match saved_state self with
  | None => (Raise (AttributeError "saved_state"), self)
  | Some saved =>
      let state_change_id := state_change_id saved in
      match ulid_truth state_change_id, current with
      | true, Some current =>
          (Ok tt,
           set_storage self
             (write_state_snapshot (storage self) current state_change_id
                statechange_qty))
      | _, _ => (Ok tt, self)
      end
  end.

Definition snapshot (self : WriteAheadLog) (statechange_qty : Z)
  : option (result unit * WriteAheadLog) :=
  with_lock self (fun self => snapshot_block self statechange_qty).

(** [WriteAheadLog.get_current_state]. *)
Definition get_current_state (self : WriteAheadLog) : option State :=
  current_state (_state_manager self).

(** ** Histories of a log

    The logs a program can hold: a log is built by the constructor and
    changed only by its two methods. *)
Inductive reachable : WriteAheadLog -> Prop :=
| reachable_init (state_manager : StateManager)
    (st : SerializedSQLiteStorage) :
    reachable (WriteAheadLog_init state_manager st)
| reachable_scope (A : Type) (self self1 : WriteAheadLog)
    (body : ScopeBody A) (r : result A) :
    reachable self ->
    process_state_change_atomically self body = Some (r, self1) ->
    reachable self1
| reachable_snapshot (self self1 : WriteAheadLog) (statechange_qty : Z)
    (r : result unit) :
    reachable self ->
    snapshot self statechange_qty = Some (r, self1) ->
    reachable self1.

(** The identifier of the last row of a list of state change rows. *)
Definition last_row_id (rows : list (StateChangeID * Payload))
  : option StateChangeID :=
  match rev rows with
  | [] => None
  | row :: _ => Some (fst row)
  end.

(** The event rows the spec expects of one [write_events]: every event
    under an identifier of its own, the next ones after [issued], next to
    the state change identifier it was handed in with. *)
Fixpoint tag_events (issued : N) (events : list (StateChangeID * Payload))
  : list (EventID * StateChangeID * Payload) :=
  match events with
  | [] => []
  | (state_change_id, event) :: rest =>
      (ULID_issued (N.succ issued), state_change_id, event)
      :: tag_events (N.succ issued) rest
  end.

(** The dispatches that returned while the body of a scope ran on
    [dispatcher], in order: each state change with the events its
    dispatch returned. *)
Fixpoint dispatched {A : Type} (body : ScopeBody A)
  (dispatcher : _AtomicStateChangeDispatcher)
  : list (StateChange * list Event) :=
  match body with
  | Done _ | Throw _ => []
  | Dispatch state_change k =>
      let (r, dispatcher1) := dispatch dispatcher state_change in
      match r with
      | Ok events => (state_change, events) :: dispatched (k r) dispatcher1
      | Raise _ => dispatched (k r) dispatcher1
      end
  | LatestState k => dispatched (k (latest_state dispatcher)) dispatcher
  end.

(** The state change rows the spec expects of a list of dispatches: one
    row per dispatch, in order, under the identifiers that follow
    [issued]. *)
Fixpoint state_change_rows (ser : Serializer) (issued : N)
  (trace : list (StateChange * list Event)) : list (StateChangeID * Payload) :=
  match trace with
  | [] => []
  | (state_change, _) :: rest =>
      (ULID_issued (N.succ issued), serialize_state_change ser state_change)
      :: state_change_rows ser (N.succ issued) rest
  end.

(** The event rows the spec expects of a list of dispatches: the events
    of each dispatch, in order, next to the identifier of its state
    change row. *)
Fixpoint event_rows (ser : Serializer) (issued issued_ev : N)
  (trace : list (StateChange * list Event))
  : list (EventID * StateChangeID * Payload) :=
  match trace with
  | [] => []
  | (_, events) :: rest =>
      tag_events issued_ev
        (map (fun event =>
                (ULID_issued (N.succ issued), serialize_event ser event))
             events)
      ++ event_rows ser (N.succ issued)
           (issued_ev + N.of_nat (List.length events)) rest
  end.

(** ** What the spec says a replay computes

    The fold of the transition function over a list of state changes,
    from a given state, dropping the events. *)
Fixpoint fold_state_changes (transition_function : TransitionFunction)
  (s : State) (state_changes : list StateChange) : result State :=
  match state_changes with
  | [] => Ok s
  | state_change :: rest =>
      match transition_function (Some s) state_change with
      | Ok (next_state, _) => fold_state_changes transition_function next_state rest
      | Raise e => Raise e
      end
  end.

(** The identifiers of a table are strictly increasing in the order of
    the rows, which is the order in which they were written. *)
Definition ids_increasing (rows : list (StateChangeID * Payload)) : Prop :=
  StronglySorted ulid_lt (map fst rows).

(** The identifiers of a query result do not decrease. *)
Definition ids_ascending (rows : list (StateChangeID * Payload)) : Prop :=
  StronglySorted ulid_le (map fst rows).

(** A store nobody is writing to: no transaction is open, the
    identifiers of its state changes increase and none of them is beyond
    the last one the factory issued. *)
Definition store_at_rest (db : Database) : Prop :=
  staged db = None /\
  ids_increasing (state_changes (durable db)) /\
  Forall (fun row => ulid_le (fst row) (ULID_issued (issued_state_changes db)))
         (state_changes (durable db)).

(** What a dispatcher [d1] has done since it was [d], inside the open
    transaction: it staged the state change rows [rows] and the event
    rows [events] after what was staged before and touched nothing
    else in the store; [rows] carry identifiers issued in between, in
    increasing order; the last of them is the one the dispatcher
    remembers; and its state manager moved only if a row was written. *)
Definition staged_since (d d1 : _AtomicStateChangeDispatcher)
  (rows : list (StateChangeID * Payload))
  (events : list (EventID * StateChangeID * Payload)) : Prop :=
  let db := database (dispatcher_storage d) in
  let db1 := database (dispatcher_storage d1) in
  (exists t,
      staged db = Some t /\
      staged db1 = Some (mkTables (state_changes t ++ rows)
                                  (state_events t ++ events)
                                  (state_snapshot t))) /\
  durable db1 = durable db /\
  serializer (dispatcher_storage d1) = serializer (dispatcher_storage d) /\
  state_transition (dispatcher_state_manager d1) =
    state_transition (dispatcher_state_manager d) /\
  last_state_change_id d1 =
    match last_row_id rows with
    | Some id => Some id
    | None => last_state_change_id d
    end /\
  (rows = [] ->
   current_state (dispatcher_state_manager d1) =
   current_state (dispatcher_state_manager d)) /\
  (rows <> [] -> current_state (dispatcher_state_manager d1) <> None) /\
  (issued_state_changes db <= issued_state_changes db1)%N /\
  Forall (fun row => exists n, fst row = ULID_issued n /\
                               (issued_state_changes db < n)%N /\
                               (n <= issued_state_changes db1)%N) rows /\
  ids_increasing rows /\
  Forall (fun ev => In (snd (fst ev)) (map fst rows)) events.

(** Between two calls the semaphore is free and, once [saved_state] is
    assigned, its state is the current state of the state manager. *)
Definition saved_state_in_step (self : WriteAheadLog) : Prop :=
  _lock self = false /\
  forall saved, saved_state self = Some saved ->
                current_state (_state_manager self) = Some (state saved).

(** ** Concurrent callers

    Several tasks share one log.  A task works through a list of calls;
    every call advances by the steps below, one per statement of the
    method and one per write to the storage, and any other task may run
    between two steps of a task. *)
Inductive Call : Type :=
| CallScope (body : ScopeBody unit)
| CallSnapshot (statechange_qty : Z)
| CallGetCurrentState.

Inductive Phase : Type :=
| Idle
| Acquiring (call : Call)
| Copying (body : ScopeBody unit)
| Opening (body : ScopeBody unit) (copied_state_manager : StateManager)
| Yielded (body : ScopeBody unit) (copied_state_manager : StateManager)
    (last_id : option StateChangeID)
| Writing (k : result (list Event) -> ScopeBody unit)
    (copied_state_manager : StateManager) (events : list Event)
    (state_change_id : StateChangeID)
| Closing (r : result unit) (copied_state_manager : StateManager)
    (last_id : option StateChangeID)
| Promoting (copied_state_manager : StateManager)
    (last_id : option StateChangeID)
| Saving (last_id : option StateChangeID)
| Snapshotting (statechange_qty : Z)
| Releasing (r : result unit).

Record Task : Type := mkTask {
  phase : Phase;
  todo : list Call;
  outcomes : list (result unit)
}.

Definition TaskId : Type := nat.

Record Config : Type := mkConfig {
  wal : WriteAheadLog;
  tasks : TaskId -> Task
}.

Definition set_task (c : Config) (t : TaskId) (self : WriteAheadLog)
  (task : Task) : Config :=
  mkConfig self (fun t' => if Nat.eqb t' t then task else tasks c t').

(** The task is between taking the semaphore and releasing it. *)
Definition holds_guard (p : Phase) : bool :=
  match p with
  | Idle | Acquiring _ => false
  | _ => true
  end.

(** The task has the transaction of its scope open. *)
Definition in_transaction (p : Phase) : bool :=
  match p with
  | Yielded _ _ _ | Writing _ _ _ _ | Closing _ _ _ => true
  | _ => false
  end.

(** One step of a task on the log; [None] when the task has nothing to
    do or waits on the semaphore.  The comments give the line of wal.py
    the step executes. *)
Definition task_step (self : WriteAheadLog) (task : Task)
  : option (WriteAheadLog * Task) :=
  let goto self1 p := Some (self1, mkTask p (todo task) (outcomes task)) in
  match phase task with
  | Idle =>
      match todo task with
      | [] => None
      | CallGetCurrentState :: rest =>
          Some (self, mkTask Idle rest (Ok tt :: outcomes task))
      | call :: rest => Some (self, mkTask (Acquiring call) rest (outcomes task))
      end
  | Acquiring call =>
      (* with self._lock: *)
      if _lock self then None
      else
        goto (set_lock self true)
          match call with
          | CallScope body => Copying body
          | CallSnapshot statechange_qty => Snapshotting statechange_qty
          | CallGetCurrentState => Releasing (Ok tt)
          end
  | Copying body =>
      (* copied_state_manager = self._state_manager.copy() *)
      goto self (Opening body (StateManager_copy (_state_manager self)))
  | Opening body copied =>
      (* with self.storage.database.transaction(): ... yield dispatcher *)
      goto (set_storage self
              (set_database (storage self)
                 (begin_transaction (database (storage self)))))
           (Yielded body copied None)
  | Yielded body copied last_id =>
      match body with
      | Done a => goto self (Closing (Ok a) copied last_id)
      | Throw e => goto self (Closing (Raise e) copied last_id)
      | Dispatch state_change k =>
          (* dispatch, up to and including write_state_change *)
          match StateManager_dispatch copied state_change with
          | (Ok (_, events), sm) =>
              let (state_change_id, db1) :=
                write_state_change (database (storage self))
                  (serialize_state_change (serializer (storage self))
                     state_change) in
              goto (set_storage self (set_database (storage self) db1))
                   (Writing k sm events state_change_id)
          | (Raise e, sm) => goto self (Yielded (k (Raise e)) sm last_id)
          end
      | LatestState k =>
          goto self (Yielded (k (current_state copied)) copied last_id)
      end
  | Writing k copied events state_change_id =>
      (* dispatch, from write_events on *)
      let event_data :=
        map (fun event =>
               (state_change_id,
                serialize_event (serializer (storage self)) event))
            events in
      goto (set_storage self
              (set_database (storage self)
                 (write_events (database (storage self)) event_data)))
           (Yielded (k (Ok events)) copied (Some state_change_id))
  | Closing (Ok _) copied last_id =>
      (* leaving the transaction block normally *)
      goto (set_storage self
              (set_database (storage self) (commit (database (storage self)))))
           (Promoting copied last_id)
  | Closing (Raise e) _ _ =>
      (* leaving the transaction block by an exception *)
      goto (set_storage self
              (set_database (storage self) (rollback (database (storage self)))))
           (Releasing (Raise e))
  | Promoting copied last_id =>
      (* self._state_manager = copied_state_manager *)
      goto (set_state_manager self copied) (Saving last_id)
  | Saving None => goto self (Releasing (Ok tt))
  | Saving (Some last_id) =>
      (* assert ...; self.saved_state = SavedState(...) *)
      match current_state (_state_manager self) with
      | Some current =>
          goto (set_saved_state self (mkSavedState last_id current))
               (Releasing (Ok tt))
      | None => goto self (Releasing (Raise (AssertionError "state is None")))
      end
  | Snapshotting statechange_qty =>
      let (r, self1) := snapshot_block self statechange_qty in
      goto self1 (Releasing r)
  | Releasing r =>
      (* leaving the block of the semaphore *)
      Some (set_lock self false, mkTask Idle (todo task) (r :: outcomes task))
  end.

(** One step of task [t] of a configuration. *)
Definition step (c : Config) (t : TaskId) : option Config :=
  match task_step (wal c) (tasks c t) with
  | Some (self1, task1) => Some (set_task c t self1 task1)
  | None => None
  end.

(** A task running on its own for [n] steps. *)
Fixpoint task_run (n : nat) (self : WriteAheadLog) (task : Task)
  : WriteAheadLog * Task :=
  match n with
  | O => (self, task)
  | S n1 =>
      match task_step self task with
      | Some (self1, task1) => task_run n1 self1 task1
      | None => (self, task)
      end
  end.

(** The configuration a schedule leads to; a task that is scheduled
    while it cannot move passes its turn. *)
Fixpoint run_schedule (schedule : list TaskId) (c : Config) : Config :=
  match schedule with
  | [] => c
  | t :: rest =>
      match step c t with
      | Some c1 => run_schedule rest c1
      | None => run_schedule rest c
      end
  end.

(** No identifier of the rows is beyond the [n]-th one issued. *)
Definition ids_bounded (n : N) (rows : list (StateChangeID * Payload)) : Prop :=
  Forall (fun row => ulid_le (fst row) (ULID_issued n)) rows.

(** The state changes of a store, durable and staged, carry increasing
    identifiers that the factory has issued, and what is staged
    continues what is durable. *)
Definition store_in_order (db : Database) : Prop :=
  ids_increasing (state_changes (durable db)) /\
  ids_bounded (issued_state_changes db) (state_changes (durable db)) /\
  ids_increasing (state_changes (current_tables db)) /\
  ids_bounded (issued_state_changes db) (state_changes (current_tables db)) /\
  (forall t, staged db = Some t ->
             exists rows,
               state_changes t = state_changes (durable db) ++ rows).

(** What holds of every configuration a schedule leads to: a task
    between taking and releasing the semaphore finds it taken and is
    the only such task; a task inside its transaction finds the
    transaction open; the store is in order. *)
Definition config_ok (c : Config) : Prop :=
  (forall t, holds_guard (phase (tasks c t)) = true ->
             _lock (wal c) = true /\
             forall t', holds_guard (phase (tasks c t')) = true -> t' = t) /\
  (forall t, in_transaction (phase (tasks c t)) = true ->
             exists tb, staged (database (storage (wal c))) = Some tb) /\
  store_in_order (database (storage (wal c))).

(** All tasks idle on a log fresh from its constructor. *)
Definition initial_config (state_manager : StateManager)
  (st : SerializedSQLiteStorage) (programs : TaskId -> list Call) : Config :=
  mkConfig (WriteAheadLog_init state_manager st)
           (fun t => mkTask Idle (programs t) []).

(** ** Histories from a given log

    [evolves self self1]: [self1] is [self] after some commit scopes and
    snapshots that returned or raised. *)
Inductive evolves (self : WriteAheadLog) : WriteAheadLog -> Prop :=
| evolves_refl : evolves self self
| evolves_scope (A : Type) (self1 self2 : WriteAheadLog)
    (body : ScopeBody A) (r : result A) :
    evolves self self1 ->
    process_state_change_atomically self1 body = Some (r, self2) ->
    evolves self self2
| evolves_snapshot (self1 self2 : WriteAheadLog) (statechange_qty : Z)
    (r : result unit) :
    evolves self self1 ->
    snapshot self1 statechange_qty = Some (r, self2) ->
    evolves self self2.

(** Every event row carries the identifier of a state change row of the
    same tables. *)
Definition events_tagged (t : Tables) : Prop :=
  Forall (fun ev => In (snd (fst ev)) (map fst (state_changes t)))
         (state_events t).

(** The semaphore is taken only by a task that is between taking and
    releasing it. *)
Definition guard_owned (c : Config) : Prop :=
  _lock (wal c) = true ->
  exists t, holds_guard (phase (tasks c t)) = true.

(** Left to run on its own the task finishes its call after finitely
    many steps: it is idle again, has recorded an outcome of the call,
    and the semaphore is free. *)
Definition releases (self : WriteAheadLog) (task : Task) : Prop :=
  exists n self1 r,
    task_run n self task =
      (self1, mkTask Idle (todo task) (r :: outcomes task)) /\
    _lock self1 = false.

End WAL.

Arguments Done {State StateChange Event A} a.
Arguments Throw {State StateChange Event A} e.
Arguments Dispatch {State StateChange Event A} state_change k.
Arguments LatestState {State StateChange Event A} k.

(** ** A small instance

    An integer state, state changes that add to it, and one event per
    state change carrying the new state; the state change [0] is refused
    by the transition function.  The serializer is the identity. *)
Module Example.

Definition transition : @TransitionFunction Z Z Z :=
  fun current state_change =>
    let s := match current with Some s => s | None => 0%Z end in
    if (state_change =? 0)%Z then Raise (Raised 7)
    else Ok ((s + state_change)%Z, [(s + state_change)%Z]).

Definition identity_serializer : @Serializer Z Z Z :=
  mkSerializer (fun x => x) (fun x => x) (fun x => x).

Definition empty_tables : @Tables Z Z := mkTables [] [] [].

Definition empty_storage : @SerializedSQLiteStorage Z Z Z Z :=
  mkStorage identity_serializer (mkDatabase empty_tables None 0 0).

Definition fresh_log : @WriteAheadLog Z Z Z Z :=
  WriteAheadLog_init (mkStateManager transition (Some 10%Z)) empty_storage.

(** [events = dispatcher.dispatch(state_change); rest(events)], letting
    what the dispatch raises escape. *)
Definition dispatch_then {A : Type} (state_change : Z)
  (rest : list Z -> @ScopeBody Z Z Z A) : @ScopeBody Z Z Z A :=
  Dispatch state_change
    (fun r => match r with Ok events => rest events | Raise e => Throw e end).

(** Two state changes that the transition function accepts. *)
Definition two_changes : @ScopeBody Z Z Z unit :=
  dispatch_then 5%Z (fun _ => dispatch_then 3%Z (fun _ => Done tt)).

(** A state change that is accepted, then one that is refused. *)
Definition second_fails : @ScopeBody Z Z Z unit :=
  dispatch_then 5%Z (fun _ => dispatch_then 0%Z (fun _ => Done tt)).

(** A scope that dispatches nothing. *)
Definition no_change : @ScopeBody Z Z Z unit := Done tt.

(** The log after the scope [two_changes] committed. *)
Definition committed_log : @WriteAheadLog Z Z Z Z :=
  match process_state_change_atomically fresh_log two_changes with
  | Some (_, self) => self
  | None => fresh_log
  end.

(** A storage holding a snapshot taken at the second state change and
    four state changes. *)
Definition stored_tables : @Tables Z Z :=
  mkTables
    [(ULID_issued 1, 5%Z); (ULID_issued 2, 3%Z);
     (ULID_issued 3, 4%Z); (ULID_issued 4, 1%Z)]
    []
    [mkSnapshotRecord 10%Z ULID_LOW 0%Z;
     mkSnapshotRecord 18%Z (ULID_issued 2) 2%Z].

Definition stored_storage : @SerializedSQLiteStorage Z Z Z Z :=
  mkStorage identity_serializer (mkDatabase stored_tables None 4 0).

(** Two tasks: the first commits two state changes and takes a
    snapshot, the second commits one state change. *)
Definition programs (t : TaskId) : list (@Call Z Z Z) :=
  match t with
  | O => [CallScope two_changes; CallSnapshot 2%Z]
  | S O => [CallGetCurrentState; CallScope (dispatch_then 7%Z (fun _ => Done tt))]
  | _ => []
  end.

(** Three tasks: the first commits two state changes and takes a
    snapshot, the second and the third commit one state change each. *)
Definition three_programs (t : TaskId) : list (@Call Z Z Z) :=
  match t with
  | O => [CallScope two_changes; CallSnapshot 2%Z]
  | S O => [CallScope (dispatch_then 7%Z (fun _ => Done tt))]
  | S (S O) => [CallScope (dispatch_then 4%Z (fun _ => Done tt))]
  | _ => []
  end.

(** The first task enters its scope, the second asks for the semaphore
    and waits while the first finishes; then the second runs its scope
    to the end, and the third enters its own and stages a row. *)
Definition three_schedule : list TaskId :=
  ([0; 0; 1; 1; 1] ++ repeat 0 11 ++ repeat 1 10 ++ repeat 2 5)%nat.

End Example.

(** * Properties *)

Unset Implicit Arguments.

(** ** The order of identifiers *)

Ltac ulid_cases :=
  unfold ulid_lt, ulid_le, ulid_ltb, ulid_leb in *;
  repeat match goal with
         | u : ULID |- _ => destruct u
         end;
  simpl in *;
  repeat match goal with
         | H : negb _ = true |- _ => apply negb_true_iff in H
         | H : (_ <=? _)%N = true |- _ => apply N.leb_le in H
         | H : (_ <=? _)%N = false |- _ => apply N.leb_gt in H
         | |- negb _ = true => apply negb_true_iff
         | |- (_ <=? _)%N = true => apply N.leb_le
         | |- (_ <=? _)%N = false => apply N.leb_gt
         end;
  try congruence; try lia.

Lemma ulid_leb_refl (u : ULID) : ulid_leb u u = true.
Proof. ulid_cases. Qed.

Lemma ulid_leb_HIGH (u : ULID) : ulid_leb u HIGH_STATECHANGE_ULID = true.
Proof. unfold HIGH_STATECHANGE_ULID. ulid_cases. Qed.

Lemma ulid_le_lt_trans (a b c : ULID) :
  ulid_le a b -> ulid_lt b c -> ulid_lt a c.
Proof. intros Hab Hbc. ulid_cases. Qed.

Lemma ulid_le_trans (a b c : ULID) : ulid_le a b -> ulid_le b c -> ulid_le a c.
Proof. intros Hab Hbc. ulid_cases. Qed.

Lemma ulid_lt_issued (n m : N) :
  ulid_lt (ULID_issued n) (ULID_issued m) <-> (n < m)%N.
Proof. split; intros H; ulid_cases. Qed.

Lemma ulid_le_issued (n m : N) :
  ulid_le (ULID_issued n) (ULID_issued m) <-> (n <= m)%N.
Proof. split; intros H; ulid_cases. Qed.

Lemma ulid_ltb_false_le (a b : ULID) : ulid_ltb a b = false -> ulid_le b a.
Proof.
  unfold ulid_ltb, ulid_le. intros H. apply negb_false_iff in H. exact H.
Qed.

Lemma ulid_lt_le (a b : ULID) : ulid_lt a b -> ulid_le a b.
Proof. intros H. ulid_cases. Qed.

(** ** Sorted lists that grow at the end *)

Lemma StronglySorted_snoc {A : Type} (R : A -> A -> Prop) (l : list A) (x : A) :
  StronglySorted R l -> Forall (fun a => R a x) l -> StronglySorted R (l ++ [x]).
Proof.
  induction 1 as [|a l Hl IH Ha]; intros Hx; simpl.
  - constructor; constructor.
  - inversion Hx; subst. constructor.
    + apply IH; assumption.
    + apply Forall_app. split; [assumption|]. constructor; [assumption|constructor].
Qed.

Section Recovery.

Context {State StateChange Event Payload Address : Type}.

Abbreviation Storage := (@SerializedSQLiteStorage State StateChange Event Payload).
Abbreviation Row := (StateChangeID * Payload)%type.
Abbreviation Transition := (@TransitionFunction State StateChange Event).

(** ** Looking up snapshots *)

Lemma get_snapshot_last (st : Storage) (before : StateChangeID)
  (earlier later : list SnapshotRecord) (snap : SnapshotRecord) :
  state_snapshot (current_tables (database st)) = earlier ++ snap :: later ->
  ulid_le (snapshot_state_change_identifier snap) before ->
  (forall s, In s later ->
             ulid_leb (snapshot_state_change_identifier s) before = false) ->
  get_snapshot_before_state_change st before = Some snap.
Proof.
  intros Htable Hsnap Hlater. unfold get_snapshot_before_state_change.
  rewrite Htable, rev_app_distr. simpl. rewrite <- app_assoc. simpl.
  assert (Hrev : forall s, In s (rev later) ->
            ulid_leb (snapshot_state_change_identifier s) before = false)
    by (intros s Hs; apply Hlater; now apply in_rev).
  induction (rev later) as [|s l IH]; simpl.
  - now rewrite Hsnap.
  - rewrite (Hrev s (or_introl eq_refl)). apply IH.
    intros s' Hs'. apply Hrev. now right.
Qed.

Lemma get_snapshot_none (st : Storage) (before : StateChangeID) :
  (forall s, In s (state_snapshot (current_tables (database st))) ->
             ulid_leb (snapshot_state_change_identifier s) before = false) ->
  get_snapshot_before_state_change st before = None.
Proof.
  intros Hall. unfold get_snapshot_before_state_change.
  assert (Hrev : forall s,
            In s (rev (state_snapshot (current_tables (database st)))) ->
            ulid_leb (snapshot_state_change_identifier s) before = false)
    by (intros s Hs; apply Hall; now apply in_rev).
  induction (rev (state_snapshot (current_tables (database st)))) as [|s l IH];
    simpl; [reflexivity|].
  rewrite (Hrev s (or_introl eq_refl)). apply IH.
  intros s' Hs'. apply Hrev. now right.
Qed.

Lemma current_tables_set_tables (db : @Database State Payload) (t : Tables) :
  current_tables (set_tables db t) = t.
Proof. unfold current_tables, set_tables. destruct (staged db); reflexivity. Qed.

Lemma write_state_snapshot_tables (st : Storage) (s : State)
  (id : StateChangeID) (qty : Z) :
  current_tables (database (write_state_snapshot st s id qty)) =
  insert_snapshot (current_tables (database st)) (mkSnapshotRecord s id qty).
Proof.
  unfold write_state_snapshot. simpl. apply current_tables_set_tables.
Qed.

Lemma restore_or_init_found (st : Storage) (node_address : Address)
  (initial_state : State) (earlier : list SnapshotRecord) (snap : SnapshotRecord) :
  state_snapshot (current_tables (database st)) = earlier ++ [snap] ->
  restore_or_init_snapshot st node_address initial_state =
  ((snapshot_data snap, snapshot_state_change_identifier snap,
    snapshot_state_change_qty snap), st).
Proof.
  intros Htable. unfold restore_or_init_snapshot.
  rewrite (@get_snapshot_last st HIGH_STATECHANGE_ULID earlier [] snap Htable).
  - reflexivity.
  - apply ulid_leb_HIGH.
  - intros s [].
Qed.

Lemma restore_or_init_fresh (st : Storage) (node_address : Address)
  (initial_state : State) :
  state_snapshot (current_tables (database st)) = [] ->
  restore_or_init_snapshot st node_address initial_state =
  ((initial_state, LOW_STATECHANGE_ULID, 0%Z),
   write_first_state_snapshot st initial_state) /\
  current_tables (database (write_first_state_snapshot st initial_state)) =
  mkTables (state_changes (current_tables (database st)))
           (state_events (current_tables (database st)))
           [mkSnapshotRecord initial_state LOW_STATECHANGE_ULID 0%Z].
Proof.
  intros Htable. unfold restore_or_init_snapshot.
  rewrite get_snapshot_none by (rewrite Htable; intros s []).
  split; [reflexivity|].
  unfold write_first_state_snapshot.
  rewrite write_state_snapshot_tables. unfold insert_snapshot.
  now rewrite Htable.
Qed.

(** C4.  [restore_or_init_snapshot] on a storage that holds snapshots
    returns the data, the state change identifier and the count of the
    one written last, and leaves the storage as it is; on a storage that
    holds none it returns [(initial_state, LOW_STATECHANGE_ULID, 0)] and
    leaves a storage whose only snapshot is [initial_state] at
    [LOW_STATECHANGE_ULID] with count 0, the other tables untouched. *)
Theorem restore_or_init_snapshot_spec (st : Storage) (node_address : Address)
  (initial_state : State) :
  (forall earlier snap,
      state_snapshot (current_tables (database st)) = earlier ++ [snap] ->
      restore_or_init_snapshot st node_address initial_state =
      ((snapshot_data snap, snapshot_state_change_identifier snap,
        snapshot_state_change_qty snap), st)) /\
  (state_snapshot (current_tables (database st)) = [] ->
   exists st1,
     restore_or_init_snapshot st node_address initial_state =
     ((initial_state, LOW_STATECHANGE_ULID, 0%Z), st1) /\
     state_snapshot (current_tables (database st1)) =
       [mkSnapshotRecord initial_state LOW_STATECHANGE_ULID 0%Z] /\
     state_changes (current_tables (database st1)) =
       state_changes (current_tables (database st)) /\
     state_events (current_tables (database st1)) =
       state_events (current_tables (database st)) /\
     serializer st1 = serializer st).
Proof.
  split.
  - intros earlier snap. apply restore_or_init_found.
  - intros Htable.
    destruct (restore_or_init_fresh st node_address initial_state Htable)
      as [Hcall Htables].
    exists (write_first_state_snapshot st initial_state).
    split; [exact Hcall|]. rewrite Htables. simpl.
    repeat split; reflexivity.
Qed.

(** C9.  Whatever the storage, a second [restore_or_init_snapshot] right
    after a first one returns the triple the first one returned, even
    when it is handed another initial state, and leaves the storage as
    the first call left it: it writes no second initial snapshot. *)
Theorem restore_or_init_snapshot_twice (st : Storage)
  (node_address node_address' : Address) (initial_state initial_state' : State) :
  restore_or_init_snapshot
    (snd (restore_or_init_snapshot st node_address initial_state))
    node_address' initial_state' =
  restore_or_init_snapshot st node_address initial_state.
Proof.
  destruct (state_snapshot (current_tables (database st))) as [|s0 l] eqn:Htable.
  - destruct (restore_or_init_fresh st node_address initial_state Htable)
      as [Hcall Htables].
    rewrite Hcall. simpl.
    apply (@restore_or_init_found _ node_address' initial_state' []
             (mkSnapshotRecord initial_state LOW_STATECHANGE_ULID 0%Z)).
    now rewrite Htables.
  - destruct (@exists_last _ (s0 :: l)) as (earlier & snap & Hlast);
      [discriminate|].
    rewrite Hlast in Htable.
    rewrite (restore_or_init_found st node_address initial_state _ _ Htable).
    simpl. now apply restore_or_init_found with (earlier := earlier).
Qed.

(** ** Queries by range *)

Lemma insert_by_id_perm (row : Row) (rows : list Row) :
  Permutation (insert_by_id row rows) (row :: rows).
Proof.
  induction rows as [|r rest IH]; simpl; [reflexivity|].
  destruct (ulid_ltb (fst row) (fst r)); [reflexivity|].
  rewrite IH. apply perm_swap.
Qed.

Lemma insert_by_id_ascending (row : Row) (rows : list Row) :
  ids_ascending rows -> ids_ascending (insert_by_id row rows).
Proof.
  unfold ids_ascending.
  induction rows as [|r rest IH]; simpl; intros Hsorted.
  - constructor; constructor.
  - inversion Hsorted as [|? ? Hrest Hr]; subst.
    destruct (ulid_ltb (fst row) (fst r)) eqn:Hlt; simpl.
    + constructor; [exact Hsorted|].
      assert (Hle : ulid_le (fst row) (fst r)) by (now apply ulid_lt_le).
      constructor; [exact Hle|].
      eapply Forall_impl; [|exact Hr].
      intros a Ha. eapply ulid_le_trans; eassumption.
    + constructor; [now apply IH|].
      apply ulid_ltb_false_le in Hlt.
      assert (Hperm : Permutation (map fst (insert_by_id row rest))
                                  (fst row :: map fst rest))
        by (change (fst row :: map fst rest) with (map fst (row :: rest));
            apply Permutation_map, insert_by_id_perm).
      eapply Permutation_Forall; [symmetry; exact Hperm|].
      constructor; assumption.
Qed.

Lemma order_by_id_fold (rows acc : list Row) :
  Permutation
    (fold_left (fun sorted row => insert_by_id row sorted) rows acc)
    (rows ++ acc) /\
  (ids_ascending acc ->
   ids_ascending (fold_left (fun sorted row => insert_by_id row sorted) rows acc)).
Proof.
  revert acc. induction rows as [|r rest IH]; intros acc; simpl.
  - split; [reflexivity|tauto].
  - destruct (IH (insert_by_id r acc)) as [Hperm Hsorted]. split.
    + rewrite Hperm, insert_by_id_perm. symmetry. apply Permutation_middle.
    + intros Hacc. apply Hsorted. now apply insert_by_id_ascending.
Qed.

Lemma order_by_id_perm (rows : list Row) : Permutation (order_by_id rows) rows.
Proof.
  unfold order_by_id. rewrite (proj1 (order_by_id_fold rows [])).
  now rewrite app_nil_r.
Qed.

Lemma order_by_id_ascending (rows : list Row) : ids_ascending (order_by_id rows).
Proof.
  unfold order_by_id. apply (proj2 (order_by_id_fold rows [])). constructor.
Qed.

Lemma filter_none {A : Type} (f : A -> bool) (l : list A) :
  (forall a, In a l -> f a = false) -> filter f l = [].
Proof.
  induction l as [|a l IH]; simpl; intros Hall; [reflexivity|].
  rewrite (Hall a (or_introl eq_refl)). apply IH. intros b Hb. apply Hall. now right.
Qed.

Lemma get_statechanges_by_range_empty (st : Storage) (r : Range) :
  (forall row, In row (state_changes (current_tables (database st))) ->
               in_range r (fst row) = false) ->
  get_statechanges_by_range st r = [].
Proof.
  intros Hnone. unfold get_statechanges_by_range, rows_in_range.
  now rewrite filter_none.
Qed.

(** ** Replaying *)

Lemma dispatch_all_fold (tf : Transition) (s : State)
  (changes : list StateChange) :
  dispatch_all (mkStateManager tf (Some s)) changes =
  match fold_state_changes tf s changes with
  | Ok s1 => Ok (mkStateManager tf (Some s1))
  | Raise e => Raise e
  end.
Proof.
  revert s. induction changes as [|c rest IH]; intros s; simpl; [reflexivity|].
  unfold StateManager_dispatch. simpl.
  destruct (tf (Some s) c) as [[s1 events]|e]; [apply IH|reflexivity].
Qed.

(** C7.  When no state change of the storage has its identifier in the
    range, [replay_unapplied_state_changes] returns the count 0 and the
    snapshot state it was given. *)
Theorem replay_empty_range (tf : Transition) (st : Storage) (r : Range)
  (node_address : Address) (state_snapshot : State) :
  (forall row, In row (state_changes (current_tables (database st))) ->
               in_range r (fst row) = false) ->
  replay_unapplied_state_changes tf st r node_address state_snapshot =
  Ok (0%Z, Some state_snapshot).
Proof.
  intros Hnone. unfold replay_unapplied_state_changes.
  rewrite (get_statechanges_by_range_empty st r Hnone). reflexivity.
Qed.

(** C5.  [restore_state] returns [None] when every snapshot of the
    storage has an identifier beyond the bound.  Otherwise, with [snap]
    the snapshot written last among those at or before the bound, it
    returns the fold of the transition function, from the state of
    [snap], over the state changes whose identifier is after the one of
    [snap] and at or before the bound, in ascending order of
    identifier; it raises what the transition function raises. *)
Theorem restore_state_spec (tf : Transition) (st : Storage)
  (bound : StateChangeID) (node_address : Address) :
  ((forall s, In s (state_snapshot (current_tables (database st))) ->
              ulid_leb (snapshot_state_change_identifier s) bound = false) ->
   restore_state tf st bound node_address = Ok None) /\
  (forall earlier snap later,
      state_snapshot (current_tables (database st)) = earlier ++ snap :: later ->
      ulid_le (snapshot_state_change_identifier snap) bound ->
      (forall s, In s later ->
                 ulid_leb (snapshot_state_change_identifier s) bound = false) ->
      exists rows,
        Permutation rows
          (filter (fun row =>
                     ulid_ltb (snapshot_state_change_identifier snap) (fst row)
                     && ulid_leb (fst row) bound)
                  (state_changes (current_tables (database st)))) /\
        ids_ascending rows /\
        restore_state tf st bound node_address =
        match fold_state_changes tf (snapshot_data snap)
                (map (fun row => deserialize_state_change (serializer st) (snd row))
                     rows)
        with
        | Ok s => Ok (Some s)
        | Raise e => Raise e
        end).
Proof.
  split.
  - intros Hnone. unfold restore_state.
    now rewrite (get_snapshot_none st bound Hnone).
  - intros earlier snap later Htable Hsnap Hlater.
    exists (rows_in_range (current_tables (database st))
              (mkRange (snapshot_state_change_identifier snap) bound)).
    split; [apply order_by_id_perm|].
    split; [apply order_by_id_ascending|].
    unfold restore_state.
    rewrite (get_snapshot_last st bound earlier later snap Htable Hsnap Hlater).
    unfold StateManager_init, get_statechanges_by_range.
    rewrite dispatch_all_fold.
    destruct (fold_state_changes _ _ _); reflexivity.
Qed.

End Recovery.

Section CommitScope.

Context {State StateChange Event Payload : Type}.

Abbreviation Dispatcher :=
  (@_AtomicStateChangeDispatcher State StateChange Event Payload).
Abbreviation Log := (@WriteAheadLog State StateChange Event Payload).
Abbreviation Body := (@ScopeBody State StateChange Event).

(** ** Writing inside a transaction *)

Lemma write_events_staged (db : @Database State Payload) (t : Tables)
  (events : list (StateChangeID * Payload)) :
  staged db = Some t ->
  write_events db events =
  mkDatabase (durable db)
    (Some (mkTables (state_changes t)
             (state_events t ++ tag_events (issued_events db) events)
             (state_snapshot t)))
    (issued_state_changes db)
    (issued_events db + N.of_nat (List.length events)).
Proof.
  revert db t. induction events as [|[id e] rest IH]; intros db t Hstaged.
  - simpl. rewrite app_nil_r, N.add_0_r. destruct db as [dur stg n m], t.
    simpl in *. now subst.
  - simpl. unfold set_tables, current_tables. simpl. rewrite Hstaged.
    erewrite IH by reflexivity. simpl.
    rewrite <- app_assoc. simpl. f_equal. lia.
Qed.

Lemma tag_events_tags (issued : N) (id : StateChangeID) (payloads : list Payload) :
  map (fun row => (snd (fst row), snd row))
      (tag_events issued (map (fun p => (id, p)) payloads)) =
  map (fun p => (id, p)) payloads.
Proof.
  revert issued. induction payloads as [|p rest IH]; intros issued; simpl;
    [reflexivity|]. now rewrite IH.
Qed.

Lemma tag_events_fresh (issued : N) (events : list (StateChangeID * Payload)) :
  Forall (fun row => exists n, fst (fst row) = ULID_issued n /\ (issued < n)%N)
         (tag_events issued events).
Proof.
  revert issued. induction events as [|[id e] rest IH]; intros issued; simpl;
    constructor.
  - exists (N.succ issued). simpl. split; [reflexivity|lia].
  - eapply Forall_impl; [|apply IH].
    intros row (n & Hn & Hlt). exists n. split; [exact Hn|lia].
Qed.

(** ** One dispatch *)

Lemma dispatch_ok (d : Dispatcher) (state_change : StateChange)
  (next_state : State) (events : list Event) (t : Tables) :
  state_transition (dispatcher_state_manager d)
    (current_state (dispatcher_state_manager d)) state_change =
  Ok (next_state, events) ->
  staged (database (dispatcher_storage d)) = Some t ->
  let st := dispatcher_storage d in
  let db := database st in
  let id := ULID_issued (N.succ (issued_state_changes db)) in
  dispatch d state_change =
  (Ok events,
   mkDispatcher
     (mkStateManager (state_transition (dispatcher_state_manager d))
        (Some next_state))
     (mkStorage (serializer st)
        (mkDatabase (durable db)
           (Some (mkTables
                    (state_changes t ++
                     [(id, serialize_state_change (serializer st) state_change)])
                    (state_events t ++
                     tag_events (issued_events db)
                       (map (fun e => (id, serialize_event (serializer st) e))
                            events))
                    (state_snapshot t)))
           (N.succ (issued_state_changes db))
           (issued_events db + N.of_nat (List.length events))))
     (Some id)).
Proof.
  destruct d as [sm [ser [dur stg n m]] last]. simpl.
  intros Htransition Hstaged. subst stg.
  unfold dispatch, StateManager_dispatch. simpl. rewrite Htransition.
  unfold write_state_change_and_events, write_state_change,
    next_state_change_ulid, set_tables, current_tables. simpl.
  erewrite write_events_staged by reflexivity. simpl.
  rewrite length_map. reflexivity.
Qed.

Lemma dispatch_raise (d : Dispatcher) (state_change : StateChange)
  (e : exception) :
  state_transition (dispatcher_state_manager d)
    (current_state (dispatcher_state_manager d)) state_change = Raise e ->
  dispatch d state_change = (Raise e, d).
Proof.
  intros Htransition. unfold dispatch, StateManager_dispatch.
  rewrite Htransition. now destruct d.
Qed.

(** C6.  A dispatch whose transition succeeds, in a scope whose
    transaction is open: the state manager of the dispatcher holds the
    new state; the staged tables gain one state change row, under the
    identifier that follows the last one issued, and one row per event,
    in order, each carrying that identifier; the durable tables are
    untouched; the dispatcher remembers the identifier; the events are
    returned. *)
Theorem dispatch_spec (d : Dispatcher) (state_change : StateChange)
  (next_state : State) (events : list Event) (t : Tables) :
  state_transition (dispatcher_state_manager d)
    (current_state (dispatcher_state_manager d)) state_change =
  Ok (next_state, events) ->
  staged (database (dispatcher_storage d)) = Some t ->
  let st := dispatcher_storage d in
  let db := database st in
  let id := ULID_issued (N.succ (issued_state_changes db)) in
  exists d1 event_rows,
    dispatch d state_change = (Ok events, d1) /\
    current_state (dispatcher_state_manager d1) = Some next_state /\
    staged (database (dispatcher_storage d1)) =
      Some (mkTables
              (state_changes t ++
               [(id, serialize_state_change (serializer st) state_change)])
              (state_events t ++ event_rows)
              (state_snapshot t)) /\
    durable (database (dispatcher_storage d1)) = durable db /\
    map (fun row => (snd (fst row), snd row)) event_rows =
      map (fun e => (id, serialize_event (serializer st) e)) events /\
    Forall (fun row => exists n, fst (fst row) = ULID_issued n /\
                                 (issued_events db < n)%N) event_rows /\
    ulid_lt (ULID_issued (issued_state_changes db)) id /\
    issued_state_changes (database (dispatcher_storage d1)) =
      N.succ (issued_state_changes db) /\
    last_state_change_id d1 = Some id.
Proof.
  intros Htransition Hstaged st db id.
  eexists. eexists. split.
  - apply (dispatch_ok d state_change next_state events t Htransition Hstaged).
  - simpl. repeat split.
    + rewrite <- (map_map (serialize_event (serializer st)) (fun p => (id, p))).
      rewrite tag_events_tags. apply map_map.
    + apply tag_events_fresh.
    + apply ulid_lt_issued. lia.
Qed.

(** ** The rows a scope stages *)

Lemma last_row_id_app (rows1 rows2 : list (StateChangeID * Payload)) :
  last_row_id (rows1 ++ rows2) =
  match last_row_id rows2 with
  | Some id => Some id
  | None => last_row_id rows1
  end.
Proof.
  unfold last_row_id. rewrite rev_app_distr.
  destruct (rev rows2); simpl; reflexivity.
Qed.

Lemma last_row_id_none (rows : list (StateChangeID * Payload)) :
  last_row_id rows = None <-> rows = [].
Proof.
  unfold last_row_id. split.
  - destruct (rev rows) eqn:Hrev; [|discriminate]. intros _.
    apply (f_equal (@rev _)) in Hrev. now rewrite rev_involutive in Hrev.
  - intros ->. reflexivity.
Qed.

Lemma StronglySorted_app {A : Type} (R : A -> A -> Prop) (l1 l2 : list A) :
  StronglySorted R l1 -> StronglySorted R l2 ->
  (forall a b, In a l1 -> In b l2 -> R a b) ->
  StronglySorted R (l1 ++ l2).
Proof.
  induction 1 as [|a l1 Hl1 IH Ha]; intros Hl2 Hcross; simpl; [exact Hl2|].
  constructor.
  - apply IH; [exact Hl2|]. intros x y Hx Hy. apply Hcross; [now right|exact Hy].
  - apply Forall_app. split; [exact Ha|].
    apply Forall_forall. intros y Hy. apply Hcross; [now left|exact Hy].
Qed.

Lemma staged_since_refl (d : Dispatcher) (t : Tables) :
  staged (database (dispatcher_storage d)) = Some t ->
  staged_since d d [] [].
Proof.
  intros Hstaged. unfold staged_since. simpl. split.
  - exists t. split; [exact Hstaged|]. rewrite !app_nil_r. now destruct t.
  - repeat split; try reflexivity; try constructor.
    intros H. now contradiction H.
Qed.

Lemma staged_since_trans (d d1 d2 : Dispatcher)
  (rows1 rows2 : list (StateChangeID * Payload))
  (events1 events2 : list (EventID * StateChangeID * Payload)) :
  staged_since d d1 rows1 events1 ->
  staged_since d1 d2 rows2 events2 ->
  staged_since d d2 (rows1 ++ rows2) (events1 ++ events2).
Proof.
  unfold staged_since.
  intros ((t & Ht & Ht1) & Hdur1 & Hser1 & Htf1 & Hlast1 & Hnil1 & Hcons1
          & Hle1 & Hids1 & Hsort1 & Hev1)
         ((t' & Ht' & Ht2) & Hdur2 & Hser2 & Htf2 & Hlast2 & Hnil2 & Hcons2
          & Hle2 & Hids2 & Hsort2 & Hev2).
  rewrite Ht1 in Ht'. injection Ht' as <-. simpl in Ht2.
  split; [exists t; split; [exact Ht|now rewrite Ht2, <- !app_assoc]|].
  split; [congruence|]. split; [congruence|]. split; [congruence|].
  split; [|split; [|split; [|split; [|split; [|split]]]]].
  - rewrite Hlast2, Hlast1, last_row_id_app. now destruct (last_row_id rows2).
  - intros Hnil. apply app_eq_nil in Hnil as [-> ->].
    now rewrite Hnil2, Hnil1.
  - intros Hcons. destruct rows2 as [|r2 rows2].
    + rewrite app_nil_r in Hcons. rewrite Hnil2 by reflexivity. now apply Hcons1.
    + now apply Hcons2.
  - lia.
  - apply Forall_app. split.
    + eapply Forall_impl; [|exact Hids1].
      intros row (n & Hn & Hlo & Hhi). exists n. repeat split; [exact Hn|lia|lia].
    + eapply Forall_impl; [|exact Hids2].
      intros row (n & Hn & Hlo & Hhi). exists n. repeat split; [exact Hn|lia|lia].
  - unfold ids_increasing in *. rewrite map_app.
    apply StronglySorted_app; [exact Hsort1|exact Hsort2|].
    intros a b Ha Hb.
    apply in_map_iff in Ha as (ra & <- & Hra).
    apply in_map_iff in Hb as (rb & <- & Hrb).
    rewrite Forall_forall in Hids1, Hids2.
    destruct (Hids1 ra Hra) as (n & -> & _ & Hn).
    destruct (Hids2 rb Hrb) as (m & -> & Hm & _).
    apply ulid_lt_issued. lia.
  - apply Forall_app. split.
    + eapply Forall_impl; [|exact Hev1].
      intros ev Hin. rewrite map_app. apply in_or_app. now left.
    + eapply Forall_impl; [|exact Hev2].
      intros ev Hin. rewrite map_app. apply in_or_app. now right.
Qed.

Lemma staged_since_dispatch (d : Dispatcher) (state_change : StateChange)
  (t : Tables) :
  staged (database (dispatcher_storage d)) = Some t ->
  exists rows events,
    staged_since d (snd (dispatch d state_change)) rows events.
Proof.
  intros Hstaged.
  destruct (state_transition (dispatcher_state_manager d)
              (current_state (dispatcher_state_manager d)) state_change)
    as [[next_state events]|e] eqn:Htransition.
  - rewrite (dispatch_ok d state_change next_state events t Htransition Hstaged).
    eexists [_]. eexists. unfold staged_since. simpl.
    split; [exists t; split; [exact Hstaged|reflexivity]|].
    split; [reflexivity|]. split; [reflexivity|]. split; [reflexivity|].
    split; [reflexivity|]. split; [discriminate|]. split; [discriminate|].
    split; [lia|]. split; [|split].
    + constructor; [|constructor]. eexists. simpl.
      split; [reflexivity|]. lia.
    + unfold ids_increasing. simpl. repeat constructor.
    + clear Htransition. set (id := ULID_issued _).
      generalize (issued_events (database (dispatcher_storage d))).
      induction events as [|ev rest IH]; intros n; simpl; constructor.
      * simpl. now left.
      * apply IH.
  - rewrite (dispatch_raise d state_change e Htransition). simpl.
    exists [], []. now apply staged_since_refl with (t := t).
Qed.

Lemma run_body_staged {A : Type} (body : Body A) (d d1 : Dispatcher)
  (r : result A) (t : Tables) :
  staged (database (dispatcher_storage d)) = Some t ->
  run_body body d = (r, d1) ->
  exists rows events, staged_since d d1 rows events.
Proof.
  revert d t. induction body as [a|e|state_change k IH|k IH];
    intros d t Hstaged Hrun; simpl in Hrun.
  - injection Hrun as _ <-. exists [], []. now apply staged_since_refl with (t := t).
  - injection Hrun as _ <-. exists [], []. now apply staged_since_refl with (t := t).
  - destruct (staged_since_dispatch d state_change t Hstaged)
      as (rows1 & events1 & Hfirst).
    destruct (dispatch d state_change) as [r0 d0] eqn:Hdispatch. simpl in Hfirst.
    destruct Hfirst as (Htables & Hrest).
    destruct Htables as (t0 & Ht0 & Ht1).
    destruct (IH r0 d0 _ Ht1 Hrun) as (rows2 & events2 & Hsecond).
    exists (rows1 ++ rows2), (events1 ++ events2).
    eapply staged_since_trans; [|exact Hsecond].
    split; [exists t0; split; assumption|exact Hrest].
  - eapply IH; eassumption.
Qed.

(** ** The commit scope as a whole *)

Lemma yielded_dispatcher_staged (self : Log) :
  staged (database (dispatcher_storage (yielded_dispatcher self))) =
  Some (current_tables (database (storage self))).
Proof. reflexivity. Qed.

Lemma scope_raises {A : Type} (self : Log) (body : Body A) (e : exception)
  (d1 : Dispatcher) :
  _lock self = false ->
  run_body body (yielded_dispatcher self) = (Raise e, d1) ->
  process_state_change_atomically self body =
  Some (Raise e,
        mkWriteAheadLog (_state_manager self)
          (set_database (dispatcher_storage d1)
             (rollback (database (dispatcher_storage d1))))
          (saved_state self) false).
Proof.
  intros Hlock Hrun. unfold process_state_change_atomically, with_lock.
  rewrite Hlock.
  change (yielded_dispatcher (set_lock self true)) with (yielded_dispatcher self).
  rewrite Hrun. reflexivity.
Qed.

Lemma scope_returns {A : Type} (self : Log) (body : Body A) (a : A)
  (d1 : Dispatcher) :
  _lock self = false ->
  run_body body (yielded_dispatcher self) = (Ok a, d1) ->
  let st1 := set_database (dispatcher_storage d1)
               (commit (database (dispatcher_storage d1))) in
  process_state_change_atomically self body =
  Some
    match last_state_change_id d1 with
    | Some last_id =>
        match current_state (dispatcher_state_manager d1) with
        | Some current =>
            (Ok a,
             mkWriteAheadLog (dispatcher_state_manager d1) st1
               (Some (mkSavedState last_id current)) false)
        | None =>
            (Raise (AssertionError "state is None"),
             mkWriteAheadLog (dispatcher_state_manager d1) st1
               (saved_state self) false)
        end
    | None =>
        (Ok a,
         mkWriteAheadLog (dispatcher_state_manager d1) st1
           (saved_state self) false)
    end.
Proof.
  intros Hlock Hrun st1. unfold process_state_change_atomically, with_lock.
  rewrite Hlock.
  change (yielded_dispatcher (set_lock self true)) with (yielded_dispatcher self).
  rewrite Hrun. simpl.
  destruct (last_state_change_id d1); [|reflexivity].
  destruct (current_state (dispatcher_state_manager d1)); reflexivity.
Qed.

(** What the body of a scope leaves in the dispatcher it was yielded. *)
Lemma scope_staged {A : Type} (self : Log) (body : Body A) (r : result A)
  (d1 : Dispatcher) :
  run_body body (yielded_dispatcher self) = (r, d1) ->
  exists rows events,
    staged_since (yielded_dispatcher self) d1 rows events /\
    last_state_change_id d1 = last_row_id rows /\
    staged (database (dispatcher_storage d1)) =
      Some (mkTables
              (state_changes (current_tables (database (storage self))) ++ rows)
              (state_events (current_tables (database (storage self))) ++ events)
              (state_snapshot (current_tables (database (storage self))))).
Proof.
  intros Hrun.
  destruct (run_body_staged body _ _ r _ (yielded_dispatcher_staged self) Hrun)
    as (rows & events & Hsince).
  exists rows, events. split; [exact Hsince|].
  destruct Hsince as ((t & Ht & Ht1) & _ & _ & _ & Hlast & _).
  rewrite yielded_dispatcher_staged in Ht. injection Ht as <-.
  split; [|exact Ht1].
  rewrite Hlast. simpl. now destruct (last_row_id rows).
Qed.

(** C1.  When the body of a commit scope raises, the scope raises the
    same error and leaves the log with the state manager and the
    [saved_state] it had, the durable tables it had and no transaction
    open: what the body staged is dropped with the copied state
    manager.  The semaphore is released. *)
Theorem failed_scope_leaves_no_trace {A : Type} (self : Log) (body : Body A)
  (e : exception) (d1 : Dispatcher) :
  _lock self = false ->
  run_body body (yielded_dispatcher self) = (Raise e, d1) ->
  exists self1,
    process_state_change_atomically self body = Some (Raise e, self1) /\
    _state_manager self1 = _state_manager self /\
    saved_state self1 = saved_state self /\
    staged (database (storage self1)) = None /\
    durable (database (storage self1)) = durable (database (storage self)) /\
    serializer (storage self1) = serializer (storage self) /\
    _lock self1 = false.
Proof.
  intros Hlock Hrun.
  destruct (scope_staged self body _ d1 Hrun)
    as (rows & events & (_ & Hdur & Hser & _) & _).
  eexists. split; [exact (scope_raises self body e d1 Hlock Hrun)|].
  simpl. repeat split; assumption.
Qed.

Lemma run_body_dispatched {A : Type} (body : Body A) :
  forall (d d1 : Dispatcher) (r : result A) (t : Tables),
    staged (database (dispatcher_storage d)) = Some t ->
    run_body body d = (r, d1) ->
    let ser := serializer (dispatcher_storage d) in
    let n := issued_state_changes (database (dispatcher_storage d)) in
    let m := issued_events (database (dispatcher_storage d)) in
    staged (database (dispatcher_storage d1)) =
      Some (mkTables
              (state_changes t ++ state_change_rows ser n (dispatched body d))
              (state_events t ++ event_rows ser n m (dispatched body d))
              (state_snapshot t)).
Proof.
  induction body as [a|e|state_change k IH|k IH];
    intros d d1 r t Hstaged Hrun; simpl in Hrun.
  - injection Hrun as _ <-. simpl. rewrite !app_nil_r, Hstaged. now destruct t.
  - injection Hrun as _ <-. simpl. rewrite !app_nil_r, Hstaged. now destruct t.
  - cbn [dispatched].
    destruct (state_transition (dispatcher_state_manager d)
                (current_state (dispatcher_state_manager d)) state_change)
      as [[next_state events]|e] eqn:Htransition.
    + pose proof (dispatch_ok d state_change next_state events t Htransition
                    Hstaged) as Hdispatch.
      cbv zeta in Hdispatch. rewrite Hdispatch in Hrun |- *.
      cbv zeta. cbn [state_change_rows event_rows].
      eapply IH in Hrun; [|reflexivity]. cbv zeta in Hrun.
      rewrite Hrun. simpl. rewrite <- !app_assoc. reflexivity.
    + rewrite (dispatch_raise d state_change e Htransition) in Hrun |- *.
      exact (IH _ _ _ _ _ Hstaged Hrun).
  - cbn [dispatched]. exact (IH _ _ _ _ _ Hstaged Hrun).
Qed.

(** C2.  When the body of a commit scope returns, the scope returns and
    the transaction is committed: the durable tables are the tables the
    scope found followed by one state change row for every dispatch that
    returned, in order and under the identifiers that follow the last
    one issued, and by the event rows of these dispatches; no
    transaction stays open.  The state manager of the log is the one the
    dispatcher worked on.  If a dispatch returned, [saved_state] is the
    identifier of the last state change row paired with the current
    state of that state manager; if none did, [saved_state] is what it
    was.  The semaphore is released. *)
Theorem committed_scope_promotes {A : Type} (self : Log) (body : Body A)
  (a : A) (d1 : Dispatcher) :
  _lock self = false ->
  run_body body (yielded_dispatcher self) = (Ok a, d1) ->
  let found := current_tables (database (storage self)) in
  let trace := dispatched body (yielded_dispatcher self) in
  let rows :=
    state_change_rows (serializer (storage self))
      (issued_state_changes (database (storage self))) trace in
  let events :=
    event_rows (serializer (storage self))
      (issued_state_changes (database (storage self)))
      (issued_events (database (storage self))) trace in
  exists self1,
    process_state_change_atomically self body = Some (Ok a, self1) /\
    staged (database (storage self1)) = None /\
    durable (database (storage self1)) =
      mkTables (state_changes found ++ rows) (state_events found ++ events)
               (state_snapshot found) /\
    _state_manager self1 = dispatcher_state_manager d1 /\
    last_state_change_id d1 = last_row_id rows /\
    match trace with
    | _ :: _ =>
        exists last_id current,
          last_row_id rows = Some last_id /\
          current_state (dispatcher_state_manager d1) = Some current /\
          saved_state self1 = Some (mkSavedState last_id current)
    | [] => saved_state self1 = saved_state self
    end /\
    _lock self1 = false.
Proof.
  intros Hlock Hrun found trace rows events.
  destruct (scope_staged self body _ d1 Hrun)
    as (rows' & events' & Hsince & Hlast & Hstaged).
  pose proof (run_body_dispatched body _ _ _ _
                (yielded_dispatcher_staged self) Hrun) as Htrace.
  cbv zeta in Htrace. cbn [yielded_dispatcher dispatcher_storage set_database
                           serializer database begin_transaction
                           issued_state_changes issued_events] in Htrace.
  fold (yielded_dispatcher self) in Htrace.
  fold found trace in Htrace. fold rows events in Htrace.
  fold found in Hstaged.
  rewrite Htrace in Hstaged. injection Hstaged as Hrows Hevents.
  apply app_inv_head in Hrows, Hevents. subst rows' events'.
  pose proof (scope_returns self body a d1 Hlock Hrun) as Hcall. simpl in Hcall.
  destruct Hsince as (_ & _ & _ & _ & _ & _ & Hcons & _).
  assert (Hdurable :
            current_tables (database (dispatcher_storage d1)) =
            mkTables (state_changes found ++ rows) (state_events found ++ events)
                     (state_snapshot found))
    by (unfold current_tables at 1; now rewrite Htrace).
  assert (Hsome : trace <> [] -> rows <> []).
  { unfold rows. destruct trace as [|[state_change evs] rest];
      [intros H; now contradiction H|discriminate]. }
  rewrite Hlast in Hcall.
  destruct trace as [|first rest] eqn:Htr.
  - change (last_row_id rows) with (@None StateChangeID) in Hcall |- *.
    eexists. split; [exact Hcall|]. simpl.
    split; [reflexivity|]. split; [exact Hdurable|].
    split; [reflexivity|]. split; [exact Hlast|]. split; reflexivity.
  - destruct (last_row_id rows) as [last_id|] eqn:Hrows.
    + destruct (current_state (dispatcher_state_manager d1)) as [current|]
        eqn:Hcur.
      * eexists. split; [exact Hcall|]. simpl.
        split; [reflexivity|]. split; [exact Hdurable|].
        split; [reflexivity|]. split; [exact Hlast|].
        split; [|reflexivity]. exists last_id, current.
        split; [reflexivity|]. split; [reflexivity|reflexivity].
      * exfalso. apply Hcons; [|reflexivity]. apply Hsome. discriminate.
    + exfalso. apply (Hsome ltac:(discriminate)).
      now apply last_row_id_none.
Qed.

(** ** Snapshots and the saved state *)

Lemma snapshot_unset (self : Log) (statechange_qty : Z) :
  _lock self = false ->
  saved_state self = None ->
  snapshot self statechange_qty =
  Some (Raise (AttributeError "saved_state"), self).
Proof.
  destruct self as [sm st saved lock]. simpl. intros -> ->. reflexivity.
Qed.

Lemma snapshot_set (self : Log) (statechange_qty : Z) (saved : SavedState)
  (current : State) :
  _lock self = false ->
  saved_state self = Some saved ->
  current_state (_state_manager self) = Some current ->
  snapshot self statechange_qty =
  Some (Ok tt,
        set_storage self
          (write_state_snapshot (storage self) current (state_change_id saved)
             statechange_qty)).
Proof.
  destruct self as [sm st saved0 lock]. simpl. intros -> -> Hcur.
  unfold snapshot, with_lock, snapshot_block. simpl. now rewrite Hcur.
Qed.

Lemma snapshot_keeps (self self1 : Log) (statechange_qty : Z) (r : result unit) :
  snapshot self statechange_qty = Some (r, self1) ->
  _state_manager self1 = _state_manager self /\
  saved_state self1 = saved_state self /\
  _lock self1 = false.
Proof.
  unfold snapshot, with_lock, snapshot_block.
  destruct self as [sm st saved lock]. simpl.
  destruct lock; [discriminate|].
  destruct saved as [saved|]; simpl.
  - destruct (current_state sm); intros H; injection H as _ <-; now repeat split.
  - intros H; injection H as _ <-; now repeat split.
Qed.

Lemma scope_entered_free {A : Type} (self self1 : Log) (body : Body A)
  (r : result A) :
  process_state_change_atomically self body = Some (r, self1) ->
  _lock self = false.
Proof.
  unfold process_state_change_atomically, with_lock.
  destruct (_lock self); [discriminate|reflexivity].
Qed.

(** A scope assigns [saved_state] only when its body returned and wrote
    at least one state change row. *)
Lemma scope_assigns {A : Type} (self self1 : Log) (body : Body A) (r : result A) :
  _lock self = false ->
  process_state_change_atomically self body = Some (r, self1) ->
  _lock self1 = false /\
  ((saved_state self1 = saved_state self /\
    current_state (_state_manager self1) = current_state (_state_manager self)) \/
   (exists a rows saved,
       r = Ok a /\
       saved_state self1 = Some saved /\
       current_state (_state_manager self1) = Some (state saved) /\
       last_row_id rows = Some (state_change_id saved) /\
       state_changes (durable (database (storage self1))) =
         state_changes (current_tables (database (storage self))) ++ rows)).
Proof.
  intros Hlock Hcall.
  destruct (run_body body (yielded_dispatcher self)) as [r0 d1] eqn:Hrun.
  destruct (scope_staged self body r0 d1 Hrun)
    as (rows & events & Hsince & Hlast & Hstaged).
  destruct r0 as [a|e].
  - pose proof (scope_returns self body a d1 Hlock Hrun) as Hcall'.
    simpl in Hcall'. rewrite Hcall in Hcall'.
    destruct Hsince as (_ & _ & _ & _ & _ & Hnil & Hcons & _).
    rewrite Hlast in Hcall'.
    destruct (last_row_id rows) as [last_id|] eqn:Hrows.
    + destruct (current_state (dispatcher_state_manager d1)) as [current|] eqn:Hcur.
      * injection Hcall' as -> ->. simpl. split; [reflexivity|]. right.
        exists a, rows, (mkSavedState last_id current). simpl.
        split; [reflexivity|]. split; [reflexivity|]. split; [exact Hcur|].
        split; [exact Hrows|].
        unfold current_tables at 1. now rewrite Hstaged.
      * exfalso. apply Hcons; [|reflexivity]. intros ->. discriminate.
    + injection Hcall' as -> ->. simpl. split; [reflexivity|]. left.
      split; [reflexivity|].
      apply last_row_id_none in Hrows. now rewrite (Hnil Hrows).
  - rewrite (scope_raises self body e d1 Hlock Hrun) in Hcall.
    injection Hcall as <- <-. simpl. split; [reflexivity|]. left. now split.
Qed.

Lemma reachable_in_step (self : Log) : reachable self -> saved_state_in_step self.
Proof.
  induction 1 as [sm st|A self self1 body r _ [Hlock Hsaved] Hcall
                  |self self1 qty r _ [Hlock Hsaved] Hcall].
  - split; [reflexivity|]. intros saved Hsome. discriminate.
  - destruct (scope_assigns self self1 body r Hlock Hcall)
      as [Hlock1 [[Hsame Hcur]|(a & rows & saved & _ & Hnew & Hcur & _)]];
      split; try exact Hlock1; intros saved' Hsome.
    + rewrite Hcur. apply Hsaved. now rewrite <- Hsame.
    + rewrite Hnew in Hsome. injection Hsome as <-. exact Hcur.
  - destruct (snapshot_keeps self self1 qty r Hcall) as (Hsm & Hsame & Hlock1).
    split; [exact Hlock1|]. intros saved Hsome.
    rewrite Hsm. apply Hsaved. now rewrite <- Hsame.
Qed.

(** C10.  The constructor leaves [saved_state] unassigned.  A commit
    scope on a log whose [saved_state] is unassigned assigns it only
    when it returns normally and wrote at least one state change row,
    and then to the identifier of the last row; [snapshot] never
    assigns it.  On a log a program can hold, [snapshot] raises
    [AttributeError] and leaves the log untouched while [saved_state]
    is unassigned; once it is assigned, the current state of the state
    manager is the state of [saved_state], and [snapshot] writes that
    state under the identifier of [saved_state] and the given count. *)
Theorem saved_state_unset_until_first_commit :
  (forall (sm : StateManager) (st : SerializedSQLiteStorage),
      saved_state (WriteAheadLog_init sm st : Log) = None) /\
  (forall (A : Type) (self self1 : Log) (body : Body A) (r : result A)
          (saved : SavedState),
      saved_state self = None ->
      process_state_change_atomically self body = Some (r, self1) ->
      saved_state self1 = Some saved ->
      exists a rows,
        r = Ok a /\
        last_row_id rows = Some (state_change_id saved) /\
        state_changes (durable (database (storage self1))) =
          state_changes (current_tables (database (storage self))) ++ rows) /\
  (forall (self self1 : Log) (statechange_qty : Z) (r : result unit),
      snapshot self statechange_qty = Some (r, self1) ->
      saved_state self1 = saved_state self) /\
  (forall (self : Log) (statechange_qty : Z),
      reachable self ->
      saved_state self = None ->
      snapshot self statechange_qty =
      Some (Raise (AttributeError "saved_state"), self)) /\
  (forall (self : Log) (statechange_qty : Z) (saved : SavedState),
      reachable self ->
      saved_state self = Some saved ->
      current_state (_state_manager self) = Some (state saved) /\
      snapshot self statechange_qty =
      Some (Ok tt,
            set_storage self
              (write_state_snapshot (storage self) (state saved)
                 (state_change_id saved) statechange_qty))).
Proof.
  split; [reflexivity|]. split; [|split; [|split]].
  - intros A self self1 body r saved Hnone Hcall Hsome.
    pose proof (scope_entered_free self self1 body r Hcall) as Hlock.
    destruct (scope_assigns self self1 body r Hlock Hcall)
      as [_ [[Hsame _]|(a & rows & saved' & Hr & Hnew & _ & Hrows & Htable)]].
    + congruence.
    + exists a, rows. rewrite Hnew in Hsome. injection Hsome as <-.
      now repeat split.
  - intros self self1 qty r Hcall. now apply snapshot_keeps in Hcall.
  - intros self qty Hreach Hnone.
    destruct (reachable_in_step self Hreach) as [Hlock _].
    now apply snapshot_unset.
  - intros self qty saved Hreach Hsome.
    destruct (reachable_in_step self Hreach) as [Hlock Hcur].
    split; [now apply Hcur|].
    apply snapshot_set; [exact Hlock|exact Hsome|now apply Hcur].
Qed.

(** C3, at the input where the code parts from it: on a log fresh from
    its constructor, [snapshot] raises [AttributeError] instead of
    returning without writing. *)
Theorem snapshot_before_any_commit_raises (sm : StateManager)
  (st : SerializedSQLiteStorage) (statechange_qty : Z) :
  snapshot (WriteAheadLog_init sm st : Log) statechange_qty =
  Some (Raise (AttributeError "saved_state"), WriteAheadLog_init sm st).
Proof. reflexivity. Qed.

End CommitScope.

Section Concurrency.

Context {State StateChange Event Payload : Type}.

Abbreviation Db := (@Database State Payload).
Abbreviation Cfg := (@Config State StateChange Event Payload).

(** ** The store stays in order *)

Lemma ids_bounded_mono (n m : N) (rows : list (StateChangeID * Payload)) :
  (n <= m)%N -> ids_bounded n rows -> ids_bounded m rows.
Proof.
  intros Hle. unfold ids_bounded. apply Forall_impl. intros row Hrow.
  eapply ulid_le_trans; [exact Hrow|]. apply ulid_le_issued. exact Hle.
Qed.

Ltac split_order :=
  unfold store_in_order;
  split; [|split; [|split; [|split]]]; simpl; try assumption.

Lemma store_at_rest_in_order (db : Db) : store_at_rest db -> store_in_order db.
Proof.
  intros (Hstaged & Hsorted & Hbounded).
  unfold store_in_order, current_tables. rewrite Hstaged.
  split; [|split; [|split; [|split]]]; try assumption. discriminate.
Qed.

Lemma begin_in_order (db : Db) :
  store_in_order db -> store_in_order (begin_transaction db).
Proof.
  intros (Hd & Hdb & Hc & Hcb & Hext). split_order.
  intros t Ht. injection Ht as <-. unfold current_tables.
  destruct (staged db) as [tb|] eqn:Hstaged.
  - now apply Hext.
  - exists []. now rewrite app_nil_r.
Qed.

Lemma commit_in_order (db : Db) : store_in_order db -> store_in_order (commit db).
Proof. intros (Hd & Hdb & Hc & Hcb & Hext). split_order. discriminate. Qed.

Lemma rollback_in_order (db : Db) :
  store_in_order db -> store_in_order (rollback db).
Proof. intros (Hd & Hdb & Hc & Hcb & Hext). split_order. discriminate. Qed.

Lemma write_state_snapshot_in_order
  (st : @SerializedSQLiteStorage State StateChange Event Payload)
  (s : State) (id : StateChangeID) (qty : Z) :
  store_in_order (database st) ->
  store_in_order (database (write_state_snapshot st s id qty)).
Proof.
  destruct st as [ser [dur [tb|] n m]];
    intros (Hd & Hdb & Hc & Hcb & Hext); simpl in *; split_order.
  intros t Ht. injection Ht as <-. simpl. now apply Hext.
Qed.

Lemma write_state_change_in_order (db : Db) (tb : Tables) (payload : Payload) :
  staged db = Some tb ->
  store_in_order db ->
  store_in_order (snd (write_state_change db payload)) /\
  (exists tb1, staged (snd (write_state_change db payload)) = Some tb1) /\
  durable (snd (write_state_change db payload)) = durable db.
Proof.
  destruct db as [dur stg n m]. simpl. intros -> (Hd & Hdb & Hc & Hcb & Hext).
  unfold current_tables in Hc, Hcb. simpl in *.
  split; [|split; [eexists; reflexivity|reflexivity]].
  unfold store_in_order, current_tables. simpl.
  split; [exact Hd|].
  split; [apply ids_bounded_mono with (2 := Hdb); lia|].
  split; [|split].
  - unfold ids_increasing in *. rewrite map_app. simpl.
    apply StronglySorted_snoc; [exact Hc|].
    apply Forall_map. eapply Forall_impl; [|exact Hcb].
    intros row Hrow. eapply ulid_le_lt_trans; [exact Hrow|].
    apply ulid_lt_issued. lia.
  - apply Forall_app. split.
    + apply ids_bounded_mono with (2 := Hcb). lia.
    + constructor; [|constructor]. simpl. apply ulid_leb_refl.
  - intros t Ht. injection Ht as <-. simpl.
    destruct (Hext tb eq_refl) as (rows & Hrows).
    exists (rows ++ [(ULID_issued (N.succ n), payload)]).
    now rewrite Hrows, app_assoc.
Qed.

Lemma write_events_in_order (db : Db) (tb : Tables)
  (events : list (StateChangeID * Payload)) :
  staged db = Some tb ->
  store_in_order db ->
  store_in_order (write_events db events) /\
  (exists tb1, staged (write_events db events) = Some tb1) /\
  durable (write_events db events) = durable db.
Proof.
  intros Hstaged (Hd & Hdb & Hc & Hcb & Hext).
  rewrite (write_events_staged db tb events Hstaged).
  unfold current_tables in Hc, Hcb. rewrite Hstaged in Hc, Hcb.
  split; [|split; [eexists; reflexivity|reflexivity]].
  unfold store_in_order, current_tables. simpl.
  split; [exact Hd|]. split; [exact Hdb|]. split; [exact Hc|].
  split; [exact Hcb|].
  intros t Ht. injection Ht as <-. simpl. now apply Hext.
Qed.

(** ** The semaphore *)

Lemma in_transaction_holds (p : @Phase State StateChange Event) :
  in_transaction p = true -> holds_guard p = true.
Proof. destruct p; simpl; congruence. Qed.

Ltac task_cases t1 t :=
  unfold set_task in *; simpl in *;
  destruct (Nat.eqb_spec t1 t); subst; simpl in *.

Lemma bystander_moves (c : Cfg) (t : TaskId) (task1 : Task) :
  config_ok c ->
  holds_guard (phase (tasks c t)) = false ->
  holds_guard (phase task1) = false ->
  config_ok (set_task c t (wal c) task1).
Proof.
  intros (Hguard & Htx & Hstore) Hout Hout1.
  split; [|split; [|exact Hstore]].
  - intros t1 Hholds. task_cases t1 t; [congruence|].
    destruct (Hguard t1 Hholds) as [Hlock Honly]. split; [exact Hlock|].
    intros t2 Hholds2. destruct (Nat.eqb_spec t2 t); subst; [congruence|].
    now apply Honly.
  - intros t1 Hin. task_cases t1 t.
    + apply in_transaction_holds in Hin. congruence.
    + now apply (Htx t1).
Qed.

Lemma bystander_acquires (c : Cfg) (t : TaskId) (task1 : Task) :
  config_ok c ->
  _lock (wal c) = false ->
  holds_guard (phase task1) = true ->
  in_transaction (phase task1) = false ->
  config_ok (set_task c t (set_lock (wal c) true) task1).
Proof.
  intros (Hguard & Htx & Hstore) Hfree Hholds1 Hout1.
  assert (Hnone : forall t1, holds_guard (phase (tasks c t1)) = false).
  { intros t1. destruct (holds_guard (phase (tasks c t1))) eqn:Hholds;
      [|reflexivity].
    destruct (Hguard t1 Hholds) as [Hlock _]. congruence. }
  split; [|split; [|exact Hstore]].
  - intros t1 Hholds. task_cases t1 t.
    + split; [reflexivity|]. intros t2 Hholds2.
      destruct (Nat.eqb_spec t2 t); [assumption|].
      rewrite Hnone in Hholds2. discriminate.
    + rewrite Hnone in Hholds. discriminate.
  - intros t1 Hin. task_cases t1 t; [congruence|].
    apply in_transaction_holds in Hin. rewrite Hnone in Hin. discriminate.
Qed.

Lemma holder_moves (c : Cfg) (t : TaskId) (self1 : WriteAheadLog) (task1 : Task) :
  config_ok c ->
  holds_guard (phase (tasks c t)) = true ->
  holds_guard (phase task1) = true ->
  _lock self1 = _lock (wal c) ->
  (in_transaction (phase task1) = true ->
   exists tb, staged (database (storage self1)) = Some tb) ->
  store_in_order (database (storage self1)) ->
  config_ok (set_task c t self1 task1).
Proof.
  intros (Hguard & Htx & Hstore) Hholds Hholds1 Hlock Htx1 Hstore1.
  destruct (Hguard t Hholds) as [Htaken Honly].
  split; [|split; [|exact Hstore1]].
  - intros t1 Hholds2. task_cases t1 t.
    + split; [congruence|]. intros t2 Hholds3.
      destruct (Nat.eqb_spec t2 t); [assumption|]. now apply Honly.
    + exfalso. apply n. now apply Honly.
  - intros t1 Hin. task_cases t1 t; [now apply Htx1|].
    exfalso. apply n. apply Honly. now apply in_transaction_holds.
Qed.

Lemma holder_releases (c : Cfg) (t : TaskId) (task1 : Task) :
  config_ok c ->
  holds_guard (phase (tasks c t)) = true ->
  holds_guard (phase task1) = false ->
  config_ok (set_task c t (set_lock (wal c) false) task1).
Proof.
  intros (Hguard & Htx & Hstore) Hholds Hout1.
  destruct (Hguard t Hholds) as [Htaken Honly].
  split; [|split; [|exact Hstore]].
  - intros t1 Hholds2. task_cases t1 t; [congruence|].
    exfalso. apply n. now apply Honly.
  - intros t1 Hin. task_cases t1 t.
    + apply in_transaction_holds in Hin. congruence.
    + exfalso. apply n. apply Honly. now apply in_transaction_holds.
Qed.

Lemma snapshot_block_in_order (self self1 : WriteAheadLog) (qty : Z)
  (r : result unit) :
  snapshot_block self qty =
    (r, self1 : @WriteAheadLog State StateChange Event Payload) ->
  _lock self1 = _lock self /\
  (store_in_order (database (storage self)) ->
   store_in_order (database (storage self1))) /\
  state_changes (durable (database (storage self1))) =
    state_changes (durable (database (storage self))).
Proof.
  unfold snapshot_block. destruct (saved_state self) as [saved|].
  - simpl. destruct (current_state (_state_manager self)) as [current|];
      intros H; injection H as _ <-; simpl.
    + split; [reflexivity|]. split; [apply write_state_snapshot_in_order|].
      destruct (storage self) as [ser [dur [tb|] n m]]; reflexivity.
    + split; [reflexivity|]. split; [tauto|reflexivity].
  - intros H; injection H as _ <-. split; [reflexivity|].
    split; [tauto|reflexivity].
Qed.

(** ** A task on its own runs the methods of the log *)

Lemma task_run_add (n m : nat) (self : WriteAheadLog)
  (task : @Task State StateChange Event) :
  task_run (n + m) self task =
  let (self1, task1) := task_run n self task in
  task_run m (self1 : @WriteAheadLog State StateChange Event Payload) task1.
Proof.
  revert self task. induction n as [|n IH]; intros self task; simpl;
    [reflexivity|].
  destruct (task_step self task) as [[self1 task1]|] eqn:Hstep; [apply IH|].
  destruct m; simpl; [reflexivity|]. now rewrite Hstep.
Qed.

Lemma yielded_run (body : ScopeBody unit) :
  forall (self : @WriteAheadLog State StateChange Event Payload)
         (copied : StateManager) (last : option StateChangeID)
         (rest : list Call) (outs : list (result unit))
         (r : result unit) (d1 : _AtomicStateChangeDispatcher),
    run_body body (mkDispatcher copied (storage self) last) = (r, d1) ->
    exists n,
      task_run n self (mkTask (Yielded body copied last) rest outs) =
      (set_storage self (dispatcher_storage d1),
       mkTask (Closing r (dispatcher_state_manager d1) (last_state_change_id d1))
              rest outs).
Proof.
  induction body as [a|e|state_change k IH|k IH];
    intros self copied last rest outs r d1 Hrun; simpl in Hrun.
  - injection Hrun as <- <-. exists 1%nat. simpl. now destruct self.
  - injection Hrun as <- <-. exists 1%nat. simpl. now destruct self.
  - unfold dispatch, write_state_change_and_events in Hrun.
    cbn [dispatcher_state_manager dispatcher_storage last_state_change_id]
      in Hrun.
    destruct (StateManager_dispatch copied state_change)
      as [[[next_state events]|e] sm] eqn:Hsm.
    + cbn [dispatcher_state_manager dispatcher_storage last_state_change_id]
        in Hrun.
      destruct (write_state_change (database (storage self))
                  (serialize_state_change (serializer (storage self))
                     state_change)) as [id db1] eqn:Hwrite.
      cbn [dispatcher_state_manager dispatcher_storage last_state_change_id]
        in Hrun.
      destruct (IH (Ok events)
                  (set_storage self
                     (set_database (storage self)
                        (write_events db1
                           (map (fun event =>
                                   (id, serialize_event
                                          (serializer (storage self)) event))
                                events))))
                  sm (Some id) rest outs r d1) as (n & Hn);
        [exact Hrun|].
      exists (S (S n)). cbn -[write_state_change write_events StateManager_dispatch].
      rewrite Hsm, Hwrite. cbn -[write_state_change write_events StateManager_dispatch].
      exact Hn.
    + destruct (IH (Raise e) self sm last rest outs r d1 Hrun) as (n & Hn).
      exists (S n). cbn -[StateManager_dispatch]. rewrite Hsm. exact Hn.
  - destruct (IH _ self copied last rest outs r d1 Hrun) as (n & Hn).
    exists (S n). simpl. exact Hn.
Qed.

(** The steps of a commit scope, taken without interruption from a free
    semaphore, end where [process_state_change_atomically] ends. *)
Lemma scope_run (self self1 : @WriteAheadLog State StateChange Event Payload)
  (body : ScopeBody unit) (r : result unit)
  (rest : list Call) (outs : list (result unit)) :
  process_state_change_atomically self body = Some (r, self1) ->
  exists n,
    task_run n self (mkTask (Acquiring (CallScope body)) rest outs) =
    (self1, mkTask Idle rest (r :: outs)).
Proof.
  intros Hcall.
  assert (Hlock : _lock self = false).
  { unfold process_state_change_atomically, with_lock in Hcall.
    destruct (_lock self); [discriminate|reflexivity]. }
  destruct (run_body body (yielded_dispatcher self)) as [r0 d1] eqn:Hrun.
  destruct (yielded_run body
              (set_storage (set_lock self true)
                 (set_database (storage self)
                    (begin_transaction (database (storage self)))))
              (StateManager_copy (_state_manager self)) None rest outs r0 d1
              Hrun) as (n & Hn).
  assert (Hopen :
            task_run 3 self (mkTask (Acquiring (CallScope body)) rest outs) =
            (set_storage (set_lock self true)
               (set_database (storage self)
                  (begin_transaction (database (storage self)))),
             mkTask (Yielded body (StateManager_copy (_state_manager self)) None)
                    rest outs)).
  { unfold task_run, task_step. simpl. rewrite Hlock. reflexivity. }
  exists (3 + (n + match r0 with Ok _ => 4 | Raise _ => 2 end))%nat.
  rewrite task_run_add, Hopen, task_run_add, Hn.
  unfold task_run, task_step.
  destruct r0 as [[]|e].
  - pose proof (scope_returns self body tt d1 Hlock Hrun) as Hcall'.
    simpl in Hcall'. rewrite Hcall in Hcall'. simpl.
    destruct (last_state_change_id d1) as [last_id|]; simpl.
    + destruct (current_state (dispatcher_state_manager d1)); simpl;
        injection Hcall' as -> ->; reflexivity.
    + injection Hcall' as -> ->; reflexivity.
  - rewrite (scope_raises self body e d1 Hlock Hrun) in Hcall.
    injection Hcall as <- <-. simpl. reflexivity.
Qed.

(** The steps of a snapshot end where [snapshot] ends. *)
Lemma snapshot_run (self self1 : @WriteAheadLog State StateChange Event Payload)
  (statechange_qty : Z) (r : result unit)
  (rest : list (@Call State StateChange Event)) (outs : list (result unit)) :
  snapshot self statechange_qty = Some (r, self1) ->
  task_run 3 self (mkTask (Acquiring (CallSnapshot statechange_qty)) rest outs) =
  (self1, mkTask Idle rest (r :: outs)).
Proof.
  unfold snapshot, with_lock, task_run, task_step, snapshot_block.
  destruct self as [sm st saved lock]. simpl.
  destruct lock; [discriminate|].
  destruct saved as [saved|]; simpl; [destruct (current_state sm); simpl|];
    intros H; injection H as <- <-; reflexivity.
Qed.

(** Scheduling one task [n] times in a row is running it on its own. *)
Lemma run_schedule_solo (n : nat) (t : TaskId) :
  forall c : Cfg,
    wal (run_schedule (repeat t n) c) = fst (task_run n (wal c) (tasks c t)) /\
    tasks (run_schedule (repeat t n) c) t =
      snd (task_run n (wal c) (tasks c t)) /\
    forall t', t' <> t -> tasks (run_schedule (repeat t n) c) t' = tasks c t'.
Proof.
  induction n as [|n IH]; intros c; simpl; [now repeat split|].
  unfold step.
  destruct (task_step (wal c) (tasks c t)) as [[self1 task1]|] eqn:Hstep.
  - destruct (IH (set_task c t self1 task1)) as (Hwal & Htask & Hothers).
    simpl in Hwal, Htask. rewrite Nat.eqb_refl in Hwal, Htask.
    split; [exact Hwal|]. split; [exact Htask|].
    intros t' Hother. rewrite (Hothers t' Hother). simpl.
    now destruct (Nat.eqb_spec t' t).
  - destruct (IH c) as (Hwal & Htask & Hothers).
    destruct n; simpl in *; [now repeat split|].
    rewrite Hstep in Hwal, Htask. now repeat split.
Qed.

(** ** Every step keeps the configuration in order *)

Lemma step_ok (c c1 : Cfg) (t : TaskId) :
  config_ok c -> step c t = Some c1 -> config_ok c1.
Proof.
  intros Hok Hstep. pose proof Hok as (Hguard & Htx & Hstore).
  unfold step, task_step in Hstep.
  destruct (phase (tasks c t))
    as [|call|body|body copied|body copied last|k copied events id
        |r copied last|copied last|last|qty|r] eqn:Hphase.
  - destruct (todo (tasks c t)) as [|[body|qty|] rest]; try discriminate;
      injection Hstep as <-; apply bystander_moves; try exact Hok;
      try (rewrite Hphase); reflexivity.
  - destruct (_lock (wal c)) eqn:Hlock; [discriminate|].
    injection Hstep as <-.
    apply bystander_acquires; try exact Hok; try exact Hlock;
      destruct call; reflexivity.
  - injection Hstep as <-.
    apply holder_moves; try exact Hok; try (rewrite Hphase); try reflexivity;
      try exact Hstore. discriminate.
  - injection Hstep as <-.
    apply holder_moves; try exact Hok; try (rewrite Hphase); try reflexivity.
    + intros _. simpl. eexists. reflexivity.
    + simpl. now apply begin_in_order.
  - assert (Hopen : exists tb, staged (database (storage (wal c))) = Some tb)
      by (apply (Htx t); now rewrite Hphase).
    destruct body as [a|e|state_change k|k].
    + injection Hstep as <-.
      apply holder_moves; try exact Hok; try (rewrite Hphase); try reflexivity;
        try exact Hstore. intros _. exact Hopen.
    + injection Hstep as <-.
      apply holder_moves; try exact Hok; try (rewrite Hphase); try reflexivity;
        try exact Hstore. intros _. exact Hopen.
    + destruct (StateManager_dispatch copied state_change)
        as [[[next_state events]|e] sm].
      * destruct Hopen as (tb & Hstaged).
        pose proof (write_state_change_in_order
                      (database (storage (wal c))) tb
                      (serialize_state_change (serializer (storage (wal c)))
                         state_change) Hstaged Hstore)
          as (Hstore1 & Hstaged1 & _).
        destruct (write_state_change (database (storage (wal c)))
                    (serialize_state_change (serializer (storage (wal c)))
                       state_change)) as [id db1].
        simpl in Hstore1, Hstaged1. injection Hstep as <-.
        apply holder_moves; try exact Hok; try (rewrite Hphase);
          try reflexivity; try exact Hstore1. intros _. exact Hstaged1.
      * injection Hstep as <-.
        apply holder_moves; try exact Hok; try (rewrite Hphase);
          try reflexivity; try exact Hstore. intros _. exact Hopen.
    + injection Hstep as <-.
      apply holder_moves; try exact Hok; try (rewrite Hphase); try reflexivity;
        try exact Hstore. intros _. exact Hopen.
  - assert (Hopen : exists tb, staged (database (storage (wal c))) = Some tb)
      by (apply (Htx t); now rewrite Hphase).
    destruct Hopen as (tb & Hstaged).
    injection Hstep as <-.
    destruct (write_events_in_order (database (storage (wal c))) tb
                (map (fun event =>
                        (id, serialize_event (serializer (storage (wal c)))
                               event)) events) Hstaged Hstore)
      as (Hstore1 & Hstaged1 & _).
    apply holder_moves; try exact Hok; try (rewrite Hphase); try reflexivity;
      try exact Hstore1. intros _. exact Hstaged1.
  - destruct r as [a|e]; injection Hstep as <-;
      apply holder_moves; try exact Hok; try (rewrite Hphase);
      try reflexivity; try discriminate; simpl.
    + now apply commit_in_order.
    + now apply rollback_in_order.
  - injection Hstep as <-.
    apply holder_moves; try exact Hok; try (rewrite Hphase); try reflexivity;
      try exact Hstore. discriminate.
  - destruct last as [last_id|];
      [destruct (current_state (_state_manager (wal c)))|];
      injection Hstep as <-;
      apply holder_moves; try exact Hok; try (rewrite Hphase);
      try reflexivity; try exact Hstore; discriminate.
  - destruct (snapshot_block (wal c) qty) as [r self1] eqn:Hblock.
    injection Hstep as <-.
    destruct (snapshot_block_in_order _ _ _ _ Hblock) as (Hlock & Hkeeps & _).
    apply holder_moves; try exact Hok; try (rewrite Hphase); try reflexivity;
      try exact Hlock; try (now apply Hkeeps). discriminate.
  - injection Hstep as <-.
    apply holder_releases; try exact Hok; try (rewrite Hphase); reflexivity.
Qed.

Lemma run_schedule_ok (schedule : list TaskId) (c : Cfg) :
  config_ok c -> config_ok (run_schedule schedule c).
Proof.
  revert c. induction schedule as [|t rest IH]; intros c Hok; simpl;
    [exact Hok|].
  destruct (step c t) as [c1|] eqn:Hstep; apply IH; [|exact Hok].
  now apply step_ok with (c := c) (t := t).
Qed.

Lemma initial_config_ok (sm : StateManager)
  (st : @SerializedSQLiteStorage State StateChange Event Payload)
  (programs : TaskId -> list Call) :
  store_at_rest (database st) -> config_ok (initial_config sm st programs).
Proof.
  intros Hrest. split; [|split].
  - intros t Hholds. discriminate.
  - intros t Hin. discriminate.
  - simpl. now apply store_at_rest_in_order.
Qed.

(** While a task holds the semaphore, a step of another task leaves the
    log, and with it the storage, as it is. *)
Lemma bystander_step (c c1 : Cfg) (t t' : TaskId) :
  config_ok c ->
  holds_guard (phase (tasks c t)) = true ->
  t' <> t ->
  step c t' = Some c1 ->
  wal c1 = wal c.
Proof.
  intros (Hguard & _) Hholds Hother Hstep.
  destruct (Hguard t Hholds) as [Htaken Honly].
  assert (Hout : holds_guard (phase (tasks c t')) = false).
  { destruct (holds_guard (phase (tasks c t'))) eqn:H; [|reflexivity].
    exfalso. apply Hother. now apply Honly. }
  unfold step, task_step in Hstep.
  destruct (phase (tasks c t')); try discriminate.
  - destruct (todo (tasks c t')) as [|[body|qty|] rest]; try discriminate;
      injection Hstep as <-; reflexivity.
  - rewrite Htaken in Hstep. discriminate.
Qed.

(** A step only ever adds state change rows at the end of the durable
    table. *)
Lemma step_appends (c c1 : Cfg) (t : TaskId) :
  config_ok c ->
  step c t = Some c1 ->
  exists rows,
    state_changes (durable (database (storage (wal c1)))) =
    state_changes (durable (database (storage (wal c)))) ++ rows.
Proof.
  intros (Hguard & Htx & Hstore) Hstep.
  assert (Hsame : forall self1 : @WriteAheadLog State StateChange Event Payload,
             durable (database (storage self1)) =
             durable (database (storage (wal c))) ->
             exists rows,
               state_changes (durable (database (storage self1))) =
               state_changes (durable (database (storage (wal c)))) ++ rows).
  { intros self1 ->. exists []. now rewrite app_nil_r. }
  unfold step, task_step in Hstep.
  destruct (phase (tasks c t))
    as [|call|body|body copied|body copied last|k copied events id
        |r copied last|copied last|last|qty|r] eqn:Hphase.
  - destruct (todo (tasks c t)) as [|[body|qty|] rest]; try discriminate;
      injection Hstep as <-; now apply Hsame.
  - destruct (_lock (wal c)); [discriminate|].
    injection Hstep as <-. now apply Hsame.
  - injection Hstep as <-. now apply Hsame.
  - injection Hstep as <-. now apply Hsame.
  - assert (Hopen : exists tb, staged (database (storage (wal c))) = Some tb)
      by (apply (Htx t); now rewrite Hphase).
    destruct body as [a|e|state_change k|k];
      try (injection Hstep as <-; now apply Hsame).
    destruct (StateManager_dispatch copied state_change)
      as [[[next_state events]|e] sm];
      [|injection Hstep as <-; now apply Hsame].
    destruct Hopen as (tb & Hstaged).
    pose proof (write_state_change_in_order
                  (database (storage (wal c))) tb
                  (serialize_state_change (serializer (storage (wal c)))
                     state_change) Hstaged Hstore) as (_ & _ & Hdur).
    destruct (write_state_change (database (storage (wal c)))
                (serialize_state_change (serializer (storage (wal c)))
                   state_change)) as [id db1].
    injection Hstep as <-. apply Hsame. exact Hdur.
  - assert (Hopen : exists tb, staged (database (storage (wal c))) = Some tb)
      by (apply (Htx t); now rewrite Hphase).
    destruct Hopen as (tb & Hstaged).
    injection Hstep as <-. apply Hsame.
    now apply (write_events_in_order (database (storage (wal c))) tb).
  - destruct r as [a|e]; injection Hstep as <-; [|now apply Hsame].
    simpl. unfold current_tables.
    destruct (staged (database (storage (wal c)))) as [tb|] eqn:Hstaged.
    + destruct Hstore as (_ & _ & _ & _ & Hext). now apply Hext.
    + exists []. now rewrite app_nil_r.
  - injection Hstep as <-. now apply Hsame.
  - destruct last as [last_id|];
      [destruct (current_state (_state_manager (wal c)))|];
      injection Hstep as <-; now apply Hsame.
  - destruct (snapshot_block (wal c) qty) as [r self1] eqn:Hblock.
    injection Hstep as <-.
    destruct (snapshot_block_in_order _ _ _ _ Hblock) as (_ & _ & Hrows).
    exists []. now rewrite app_nil_r.
  - injection Hstep as <-. now apply Hsame.
Qed.

(** C8.  Several tasks run commit scopes, snapshots and reads on one
    log, from a store at rest, under any schedule.  In the configuration
    the schedule leads to: the state change identifiers of the durable
    table increase strictly in the order of the rows, and every step
    only adds rows at the end of that table, so that order is the order
    of the commits; a task that is between taking and releasing the
    semaphore finds it taken and is the only such task; and while it
    is, no step of another task changes the log or its storage. *)
Theorem commits_are_ordered_and_exclusive (sm : StateManager)
  (st : @SerializedSQLiteStorage State StateChange Event Payload)
  (programs : TaskId -> list Call) (schedule : list TaskId) :
  store_at_rest (database st) ->
  let c := run_schedule schedule (initial_config sm st programs) in
  ids_increasing (state_changes (durable (database (storage (wal c))))) /\
  (forall t c1,
      step c t = Some c1 ->
      exists rows,
        state_changes (durable (database (storage (wal c1)))) =
        state_changes (durable (database (storage (wal c)))) ++ rows) /\
  (forall t,
      holds_guard (phase (tasks c t)) = true ->
      _lock (wal c) = true /\
      (forall t', holds_guard (phase (tasks c t')) = true -> t' = t) /\
      (forall t' c1, t' <> t -> step c t' = Some c1 -> wal c1 = wal c)).
Proof.
  intros Hrest c.
  assert (Hok : config_ok c)
    by (apply run_schedule_ok; now apply initial_config_ok).
  split; [|split].
  - destruct Hok as (_ & _ & Hsorted & _). exact Hsorted.
  - intros t c1. now apply step_appends.
  - intros t Hholds. pose proof Hok as (Hguard & _).
    destruct (Hguard t Hholds) as [Htaken Honly].
    split; [exact Htaken|]. split; [exact Honly|].
    intros t' c1 Hother Hstep.
    now apply bystander_step with (t := t) (t' := t').
Qed.

End Concurrency.

(** * The properties at work on the small instance *)

Module ExampleFacts.

Import Example.

(** Scenario D of the spec: the first dispatch succeeds, the second one
    is refused, and nothing is left of the scope. *)
Lemma failed_scope_witness :
  _lock fresh_log = false /\
  run_body second_fails (yielded_dispatcher fresh_log) =
    (Raise (Raised 7), snd (run_body second_fails (yielded_dispatcher fresh_log))) /\
  exists self1,
    process_state_change_atomically fresh_log second_fails =
      Some (Raise (Raised 7), self1) /\
    _state_manager self1 = _state_manager fresh_log /\
    saved_state self1 = saved_state fresh_log /\
    staged (database (storage self1)) = None /\
    durable (database (storage self1)) = durable (database (storage fresh_log)) /\
    serializer (storage self1) = serializer (storage fresh_log) /\
    _lock self1 = false.
Proof.
  split; [reflexivity|]. split; [reflexivity|].
  apply (failed_scope_leaves_no_trace fresh_log second_fails (Raised 7)
           (snd (run_body second_fails (yielded_dispatcher fresh_log))));
    reflexivity.
Defined.

(** Scenario B of the spec, with two state changes: both rows and both
    event rows are durable after the scope, and [saved_state] pairs the
    second identifier with the state 18. *)
Lemma committed_scope_witness :
  _lock fresh_log = false /\
  run_body two_changes (yielded_dispatcher fresh_log) =
    (Ok tt, snd (run_body two_changes (yielded_dispatcher fresh_log))) /\
  exists self1,
    process_state_change_atomically fresh_log two_changes = Some (Ok tt, self1) /\
    staged (database (storage self1)) = None /\
    durable (database (storage self1)) =
      mkTables
        [(ULID_issued 1, 5%Z); (ULID_issued 2, 3%Z)]
        [(ULID_issued 1, ULID_issued 1, 15%Z);
         (ULID_issued 2, ULID_issued 2, 18%Z)]
        [] /\
    current_state (_state_manager self1) = Some 18%Z /\
    saved_state self1 = Some (mkSavedState (ULID_issued 2) 18%Z) /\
    _lock self1 = false.
Proof.
  split; [reflexivity|]. split; [reflexivity|].
  pose proof (committed_scope_promotes fresh_log two_changes tt
                (snd (run_body two_changes (yielded_dispatcher fresh_log)))
                eq_refl eq_refl) as Hscope.
  cbv zeta in Hscope.
  destruct Hscope as (self1 & Hcall & Hstaged & Hdurable & Hsm & _ & Hsaved
                      & Hfree).
  exists self1. split; [exact Hcall|]. split; [exact Hstaged|].
  split; [exact Hdurable|]. split; [rewrite Hsm; reflexivity|].
  split; [|exact Hfree].
  destruct Hsaved as (last_id & current & Hlast & Hcurrent & Hsaved).
  injection Hlast as <-. injection Hcurrent as <-. exact Hsaved.
Defined.

Lemma restore_or_init_snapshot_witness :
  restore_or_init_snapshot stored_storage tt 0%Z =
    ((18%Z, ULID_issued 2, 2%Z), stored_storage) /\
  exists st1,
    restore_or_init_snapshot empty_storage tt 10%Z =
      ((10%Z, LOW_STATECHANGE_ULID, 0%Z), st1) /\
    state_snapshot (current_tables (database st1)) =
      [mkSnapshotRecord 10%Z LOW_STATECHANGE_ULID 0%Z] /\
    state_changes (current_tables (database st1)) =
      state_changes (current_tables (database empty_storage)) /\
    state_events (current_tables (database st1)) =
      state_events (current_tables (database empty_storage)) /\
    serializer st1 = serializer empty_storage.
Proof.
  split.
  - apply (proj1 (restore_or_init_snapshot_spec stored_storage tt 0%Z)
             [mkSnapshotRecord 10%Z ULID_LOW 0%Z]
             (mkSnapshotRecord 18%Z (ULID_issued 2) 2%Z)).
    reflexivity.
  - apply (proj2 (restore_or_init_snapshot_spec empty_storage tt 10%Z)).
    reflexivity.
Defined.

(** Restoring as of the third state change: the snapshot taken at the
    second one is the starting point and the third is replayed. *)
Lemma restore_state_witness :
  restore_state transition empty_storage (ULID_issued 3) tt = Ok None /\
  exists rows,
    Permutation rows
      (filter (fun row => ulid_ltb (ULID_issued 2) (fst row)
                          && ulid_leb (fst row) (ULID_issued 3))
              (state_changes (current_tables (database stored_storage)))) /\
    ids_ascending rows /\
    restore_state transition stored_storage (ULID_issued 3) tt =
    match fold_state_changes transition 18%Z
            (map (fun row => deserialize_state_change
                               (serializer stored_storage) (snd row)) rows)
    with
    | Ok s => Ok (Some s)
    | Raise e => Raise e
    end.
Proof.
  split.
  - apply (proj1 (restore_state_spec transition empty_storage (ULID_issued 3) tt)).
    intros s [].
  - apply (proj2 (restore_state_spec transition stored_storage (ULID_issued 3) tt)
             [mkSnapshotRecord 10%Z ULID_LOW 0%Z]
             (mkSnapshotRecord 18%Z (ULID_issued 2) 2%Z) []).
    + reflexivity.
    + reflexivity.
    + intros s [].
Defined.

Lemma dispatch_witness :
  exists d1 event_rows,
    dispatch (yielded_dispatcher fresh_log) 5%Z = (Ok [15%Z], d1) /\
    current_state (dispatcher_state_manager d1) = Some 15%Z /\
    staged (database (dispatcher_storage d1)) =
      Some (mkTables ([] ++ [(ULID_issued 1, 5%Z)]) ([] ++ event_rows) []) /\
    durable (database (dispatcher_storage d1)) = empty_tables /\
    map (fun row => (snd (fst row), snd row)) event_rows =
      map (fun e => (ULID_issued 1, e)) [15%Z] /\
    Forall (fun row => exists n, fst (fst row) = ULID_issued n /\ (0 < n)%N)
           event_rows /\
    ulid_lt (ULID_issued 0) (ULID_issued 1) /\
    issued_state_changes (database (dispatcher_storage d1)) = 1%N /\
    last_state_change_id d1 = Some (ULID_issued 1).
Proof.
  apply (dispatch_spec (yielded_dispatcher fresh_log) 5%Z 15%Z [15%Z]
           empty_tables); reflexivity.
Defined.

Lemma replay_empty_range_witness :
  (forall row,
      In row (state_changes (current_tables (database stored_storage))) ->
      in_range (mkRange (ULID_issued 4) HIGH_STATECHANGE_ULID) (fst row) = false) /\
  replay_unapplied_state_changes transition stored_storage
    (mkRange (ULID_issued 4) HIGH_STATECHANGE_ULID) tt 18%Z =
  Ok (0%Z, Some 18%Z).
Proof.
  assert (Hnone : forall row,
             In row (state_changes (current_tables (database stored_storage))) ->
             in_range (mkRange (ULID_issued 4) HIGH_STATECHANGE_ULID) (fst row)
             = false).
  { simpl. intros row [<-|[<-|[<-|[<-|[]]]]]; reflexivity. }
  split; [exact Hnone|].
  apply (replay_empty_range transition stored_storage
           (mkRange (ULID_issued 4) HIGH_STATECHANGE_ULID) tt 18%Z Hnone).
Defined.

Lemma committed_log_reachable : reachable committed_log.
Proof.
  apply reachable_scope
    with (A := unit) (self := fresh_log) (body := two_changes) (r := Ok tt).
  - apply reachable_init.
  - reflexivity.
Qed.

(** Before the first commit [snapshot] raises; after the scope
    [two_changes] it writes the state 18 under the second identifier. *)
Lemma saved_state_witness :
  snapshot fresh_log 0%Z = Some (Raise (AttributeError "saved_state"), fresh_log) /\
  current_state (_state_manager committed_log) = Some 18%Z /\
  snapshot committed_log 2%Z =
    Some (Ok tt,
          set_storage committed_log
            (write_state_snapshot (storage committed_log) 18%Z (ULID_issued 2)
               2%Z)).
Proof.
  destruct (@saved_state_unset_until_first_commit Z Z Z Z)
    as (_ & _ & _ & Hunset & Hset).
  split.
  - apply Hunset; [apply reachable_init|reflexivity].
  - apply (Hset committed_log 2%Z (mkSavedState (ULID_issued 2) 18%Z)).
    + exact committed_log_reachable.
    + reflexivity.
Defined.

(** Three tasks taking turns: when the schedule stops, the scopes of
    the first and of the second task are committed, one after the other,
    the third task is inside its scope with a row staged, and the first
    task is free to ask for the semaphore. *)
Lemma commits_witness :
  store_at_rest (database empty_storage) /\
  let c := run_schedule three_schedule
             (initial_config (mkStateManager transition (Some 10%Z))
                empty_storage three_programs) in
  state_changes (durable (database (storage (wal c)))) =
    [(ULID_issued 1, 5%Z); (ULID_issued 2, 3%Z); (ULID_issued 3, 7%Z)] /\
  option_map (@state_changes Z Z) (staged (database (storage (wal c)))) =
    Some [(ULID_issued 1, 5%Z); (ULID_issued 2, 3%Z); (ULID_issued 3, 7%Z);
          (ULID_issued 4, 4%Z)] /\
  holds_guard (phase (tasks c 2%nat)) = true /\
  option_map (fun c1 => phase (tasks c1 0%nat)) (step c 0%nat) =
    Some (Acquiring (CallSnapshot 2%Z)) /\
  ids_increasing (state_changes (durable (database (storage (wal c))))) /\
  (forall t c1,
      step c t = Some c1 ->
      exists rows,
        state_changes (durable (database (storage (wal c1)))) =
        state_changes (durable (database (storage (wal c)))) ++ rows) /\
  (forall t,
      holds_guard (phase (tasks c t)) = true ->
      _lock (wal c) = true /\
      (forall t', holds_guard (phase (tasks c t')) = true -> t' = t) /\
      (forall t' c1, t' <> t -> step c t' = Some c1 -> wal c1 = wal c)).
Proof.
  assert (Hrest : store_at_rest (database empty_storage))
    by (split; [reflexivity|split; constructor]).
  split; [exact Hrest|].
  cbv zeta. split; [vm_compute; reflexivity|].
  split; [vm_compute; reflexivity|]. split; [vm_compute; reflexivity|].
  split; [vm_compute; reflexivity|].
  apply (commits_are_ordered_and_exclusive
           (mkStateManager transition (Some 10%Z)) empty_storage three_programs
           three_schedule Hrest).
Defined.

End ExampleFacts.

(** * Further properties of the recovery functions *)

Section ReplayMore.

Context {State StateChange Event Payload Address : Type}.

Abbreviation Storage' := (@SerializedSQLiteStorage State StateChange Event Payload).
Abbreviation Transition' := (@TransitionFunction State StateChange Event).

Lemma replay_unfold (tf : Transition') (st : Storage') (r : Range)
  (node_address : Address) (s : State) :
  replay_unapplied_state_changes tf st r node_address s =
  match fold_state_changes tf s (get_statechanges_by_range st r) with
  | Ok s1 =>
      Ok (Z.of_nat (List.length (get_statechanges_by_range st r)), Some s1)
  | Raise e => Raise e
  end.
Proof.
  unfold replay_unapplied_state_changes, StateManager_init.
  rewrite dispatch_all_fold.
  destruct (fold_state_changes tf s (get_statechanges_by_range st r));
    reflexivity.
Qed.

(** X2.  Whatever the storage, [restore_state] at
    [HIGH_STATECHANGE_ULID] on the storage [restore_or_init_snapshot]
    leaves returns the state that [replay_unapplied_state_changes]
    returns for the snapshot state and the identifier
    [restore_or_init_snapshot] returned, and raises what it raises. *)
Theorem restore_state_is_restore_then_replay (tf : Transition') (st : Storage')
  (node_address : Address) (initial_state : State) :
  let restored := restore_or_init_snapshot st node_address initial_state in
  let state_snapshot := fst (fst (fst restored)) in
  let state_change_identifier := snd (fst (fst restored)) in
  restore_state tf (snd restored) HIGH_STATECHANGE_ULID node_address =
  match replay_unapplied_state_changes tf (snd restored)
          (mkRange state_change_identifier HIGH_STATECHANGE_ULID)
          node_address state_snapshot
  with
  | Ok (_, s) => Ok s
  | Raise e => Raise e
  end.
Proof.
  intros restored state_snapshot0 state_change_identifier. rewrite replay_unfold.
  assert (Hsnap : exists earlier snap,
             state_snapshot (current_tables (database (snd restored))) =
               earlier ++ [snap] /\
             snapshot_data snap = state_snapshot0 /\
             snapshot_state_change_identifier snap = state_change_identifier).
  { subst restored state_snapshot0 state_change_identifier.
    destruct (state_snapshot (current_tables (database st)))
      as [|s0 l] eqn:Htable.
    - destruct (restore_or_init_fresh st node_address initial_state Htable)
        as [Hcall Htables].
      rewrite Hcall. cbn [fst snd]. rewrite Htables. cbn [state_snapshot].
      exists [], (mkSnapshotRecord initial_state LOW_STATECHANGE_ULID 0%Z).
      now repeat split.
    - destruct (@exists_last _ (s0 :: l)) as (earlier & snap & Hlast);
        [discriminate|].
      rewrite Hlast in Htable.
      rewrite (restore_or_init_found st node_address initial_state _ _ Htable).
      cbn [fst snd]. exists earlier, snap. now repeat split. }
  destruct Hsnap as (earlier & snap & Htable & Hdata & Hid).
  unfold restore_state.
  rewrite (get_snapshot_last (snd restored) HIGH_STATECHANGE_ULID earlier []
             snap Htable (ulid_leb_HIGH _)) by (intros x []).
  unfold StateManager_init. rewrite dispatch_all_fold, Hdata, Hid.
  destruct (fold_state_changes tf state_snapshot0 _); reflexivity.
Qed.

End ReplayMore.

(** * Further properties of the commit scope *)

Section ScopeMore.

Context {State StateChange Event Payload : Type}.

Abbreviation Dispatcher' :=
  (@_AtomicStateChangeDispatcher State StateChange Event Payload).
Abbreviation Log' := (@WriteAheadLog State StateChange Event Payload).
Abbreviation Body' := (@ScopeBody State StateChange Event).

(** X4.  A state change the transition function refuses leaves no
    trace in the scope: [dispatch] raises the error of the transition
    function with the dispatcher as it was, nothing written, no
    identifier issued and the last identifier seen kept; a body that
    goes on after the error runs as if the dispatch had not been
    made. *)
Theorem refused_dispatch_writes_nothing (d : Dispatcher')
  (state_change : StateChange) (e : exception) :
  state_transition (dispatcher_state_manager d)
    (current_state (dispatcher_state_manager d)) state_change = Raise e ->
  dispatch d state_change = (Raise e, d) /\
  forall (A : Type) (k : result (list Event) -> Body' A),
    run_body (Dispatch state_change k) d = run_body (k (Raise e)) d.
Proof.
  intros Htransition.
  pose proof (dispatch_raise d state_change e Htransition) as Hdispatch.
  split; [exact Hdispatch|]. intros A k. simpl. now rewrite Hdispatch.
Qed.

(** What a scope that came back did to the log, in terms of what its
    body left in the dispatcher. *)
Lemma scope_effect {A : Type} (self self1 : Log') (body : Body' A)
  (r : result A) :
  process_state_change_atomically self body = Some (r, self1) ->
  exists d1 rows events,
    run_body body (yielded_dispatcher self) = (r, d1) /\
    staged_since (yielded_dispatcher self) d1 rows events /\
    last_state_change_id d1 = last_row_id rows /\
    _lock self1 = false /\
    staged (database (storage self1)) = None /\
    serializer (storage self1) = serializer (storage self) /\
    issued_state_changes (database (storage self1)) =
      issued_state_changes (database (dispatcher_storage d1)) /\
    match r with
    | Raise _ =>
        _state_manager self1 = _state_manager self /\
        saved_state self1 = saved_state self /\
        durable (database (storage self1)) = durable (database (storage self))
    | Ok _ =>
        _state_manager self1 = dispatcher_state_manager d1 /\
        durable (database (storage self1)) =
          mkTables
            (state_changes (current_tables (database (storage self))) ++ rows)
            (state_events (current_tables (database (storage self))) ++ events)
            (state_snapshot (current_tables (database (storage self)))) /\
        saved_state self1 =
          match last_row_id rows with
          | Some last_id =>
              option_map (mkSavedState last_id)
                (current_state (dispatcher_state_manager d1))
          | None => saved_state self
          end /\
        (rows <> [] -> current_state (dispatcher_state_manager d1) <> None)
    end.
Proof.
  intros Hcall. pose proof (scope_entered_free self self1 body r Hcall) as Hlock.
  destruct (run_body body (yielded_dispatcher self)) as [r0 d1] eqn:Hrun.
  destruct (scope_staged self body r0 d1 Hrun)
    as (rows & events & Hsince & Hlast & Hstaged).
  pose proof Hsince as (_ & Hdur & Hser & _ & _ & _ & Hcons & _).
  destruct r0 as [a|e].
  - pose proof (scope_returns self body a d1 Hlock Hrun) as Hcall'.
    simpl in Hcall'. rewrite Hcall in Hcall'. rewrite Hlast in Hcall'.
    assert (Hdurable :
              current_tables (database (dispatcher_storage d1)) =
              mkTables
                (state_changes (current_tables (database (storage self))) ++ rows)
                (state_events (current_tables (database (storage self))) ++ events)
                (state_snapshot (current_tables (database (storage self)))))
      by (unfold current_tables at 1; now rewrite Hstaged).
    destruct (last_row_id rows) as [last_id|] eqn:Hrows.
    + destruct (current_state (dispatcher_state_manager d1)) as [current|]
        eqn:Hcur.
      * injection Hcall' as -> ->. exists d1, rows, events. simpl.
        rewrite Hrows, Hcur.
        split; [reflexivity|]. split; [exact Hsince|]. split; [exact Hlast|].
        split; [reflexivity|]. split; [reflexivity|]. split; [exact Hser|].
        split; [reflexivity|]. split; [reflexivity|]. split; [exact Hdurable|].
        split; [reflexivity|]. intros _. discriminate.
      * exfalso. apply Hcons; [|reflexivity]. intros ->. discriminate.
    + injection Hcall' as -> ->. exists d1, rows, events. simpl.
      rewrite Hrows.
      split; [reflexivity|]. split; [exact Hsince|]. split; [exact Hlast|].
      split; [reflexivity|]. split; [reflexivity|]. split; [exact Hser|].
      split; [reflexivity|]. split; [reflexivity|]. split; [exact Hdurable|].
      split; [reflexivity|]. exact Hcons.
  - rewrite (scope_raises self body e d1 Hlock Hrun) in Hcall.
    injection Hcall as <- <-. exists d1, rows, events. simpl.
    split; [reflexivity|]. split; [exact Hsince|]. split; [exact Hlast|].
    split; [reflexivity|]. split; [reflexivity|]. split; [exact Hser|].
    split; [reflexivity|]. split; [reflexivity|]. split; [reflexivity|].
    exact Hdur.
Qed.

Lemma state_manager_ext (sm1 sm2 : @StateManager State StateChange Event) :
  state_transition sm1 = state_transition sm2 ->
  current_state sm1 = current_state sm2 ->
  sm1 = sm2.
Proof. destruct sm1, sm2. simpl. now intros -> ->. Qed.

Lemma tagged_in_nothing
  (events : list (EventID * StateChangeID * Payload)) :
  Forall (fun ev => In (snd (fst ev)) (@nil StateChangeID)) events ->
  events = [].
Proof. destruct events as [|ev rest]; [reflexivity|]. intros H. now inversion H. Qed.

(** X6.  A commit scope in which no dispatch succeeded, on a log whose
    storage has no transaction open, leaves the log with the state
    manager, the [saved_state] and the durable tables it had, whether
    its body returns or raises. *)
Theorem scope_without_rows_changes_nothing {A : Type} (self self1 : Log')
  (body : Body' A) (r : result A) :
  staged (database (storage self)) = None ->
  process_state_change_atomically self body = Some (r, self1) ->
  last_state_change_id (snd (run_body body (yielded_dispatcher self))) = None ->
  _state_manager self1 = _state_manager self /\
  saved_state self1 = saved_state self /\
  durable (database (storage self1)) = durable (database (storage self)) /\
  staged (database (storage self1)) = None.
Proof.
  intros Hrest Hcall Hnone.
  destruct (scope_effect self self1 body r Hcall)
    as (d1 & rows & events & Hrun & Hsince & Hlast & _ & Hstaged & _ & _ & Hr).
  rewrite Hrun in Hnone. simpl in Hnone. rewrite Hlast in Hnone.
  pose proof (proj1 (last_row_id_none rows) Hnone) as ->.
  destruct Hsince as (_ & _ & _ & Htf & _ & Hnil & _ & _ & _ & _ & Htagged).
  destruct r as [a|e].
  - destruct Hr as (Hsm & Hdur & Hsaved & _). simpl in Hsaved.
    split; [|split; [exact Hsaved|split; [|exact Hstaged]]].
    + rewrite Hsm.
      transitivity (StateManager_copy (_state_manager self));
        [|now destruct (_state_manager self)].
      apply state_manager_ext; [exact Htf|now apply Hnil].
    + rewrite Hdur, (tagged_in_nothing events Htagged), !app_nil_r.
      unfold current_tables. rewrite Hrest.
      now destruct (durable (database (storage self))).
  - destruct Hr as (Hsm & Hsaved & Hdur). now repeat split.
Qed.

Lemma snapshot_tables (self self1 : Log') (statechange_qty : Z)
  (r : result unit) :
  snapshot self statechange_qty = Some (r, self1) ->
  issued_state_changes (database (storage self1)) =
    issued_state_changes (database (storage self)) /\
  serializer (storage self1) = serializer (storage self) /\
  (staged (database (storage self)) = None ->
   staged (database (storage self1)) = None /\
   state_changes (durable (database (storage self1))) =
     state_changes (durable (database (storage self))) /\
   state_events (durable (database (storage self1))) =
     state_events (durable (database (storage self))) /\
   (state_snapshot (durable (database (storage self1))) =
      state_snapshot (durable (database (storage self))) \/
    exists saved current,
      saved_state self = Some saved /\
      current_state (_state_manager self) = Some current /\
      state_snapshot (durable (database (storage self1))) =
        state_snapshot (durable (database (storage self))) ++
        [mkSnapshotRecord current (state_change_id saved) statechange_qty])).
Proof.
  unfold snapshot, with_lock, snapshot_block.
  destruct self as [sm [ser [dur stg n m]] saved lock]. simpl.
  destruct lock; [discriminate|].
  destruct saved as [saved|]; simpl.
  - destruct (current_state sm) as [current|] eqn:Hcur; simpl.
    + intros H. injection H as _ <-. simpl.
      split; [now destruct stg|]. split; [reflexivity|].
      intros ->. simpl. repeat split. right. exists saved, current.
      now repeat split.
    + intros H. injection H as _ <-. simpl. repeat split; try assumption.
      now left.
  - intros H. injection H as _ <-. simpl. repeat split; try assumption.
    now left.
Qed.

(** X9.  Starting from a log whose storage has no transaction open and
    whose event rows all carry the identifier of one of its state change
    rows, every commit scope and snapshot keeps it so: a durable event
    row never refers to a state change that is not durable. *)
Theorem events_stay_tagged (self0 self : Log') :
  staged (database (storage self0)) = None ->
  events_tagged (durable (database (storage self0))) ->
  evolves self0 self ->
  events_tagged (durable (database (storage self))) /\
  staged (database (storage self)) = None.
Proof.
  intros Hrest0 Htagged0.
  induction 1 as [|A self1 self2 body r _ [Htagged Hrest] Hcall
                  |self1 self2 qty r _ [Htagged Hrest] Hcall].
  - now split.
  - destruct (scope_effect self1 self2 body r Hcall)
      as (d1 & rows & events & _ & Hsince & _ & _ & Hstaged & _ & _ & Hr).
    split; [|exact Hstaged].
    destruct Hsince as (_ & _ & _ & _ & _ & _ & _ & _ & _ & _ & Hnew).
    destruct r as [a|e].
    + destruct Hr as (_ & Hdur & _). rewrite Hdur.
      unfold current_tables. rewrite Hrest.
      unfold events_tagged in *. simpl. rewrite map_app.
      apply Forall_app. split.
      * eapply Forall_impl; [|exact Htagged].
        intros ev Hin. apply in_or_app. now left.
      * eapply Forall_impl; [|exact Hnew].
        intros ev Hin. apply in_or_app. now right.
    + destruct Hr as (_ & _ & Hdur). now rewrite Hdur.
  - destruct (snapshot_tables self1 self2 qty r Hcall) as (_ & _ & Hkeeps).
    destruct (Hkeeps Hrest) as (Hstaged & Hrows & Hevents & _).
    split; [|exact Hstaged].
    unfold events_tagged in *. now rewrite Hrows, Hevents.
Qed.

Lemma last_row_id_in (rows : list (StateChangeID * Payload))
  (id : StateChangeID) :
  last_row_id rows = Some id -> exists row, In row rows /\ fst row = id.
Proof.
  unfold last_row_id. destruct (rev rows) as [|row rest] eqn:Hrev;
    [discriminate|].
  intros H. injection H as <-. exists row. split; [|reflexivity].
  apply in_rev. rewrite Hrev. now left.
Qed.

(** On a log a program can hold, the identifier of [saved_state] is one
    the factory has issued. *)
Lemma saved_state_issued (self : Log') :
  reachable self ->
  forall saved,
    saved_state self = Some saved ->
    ulid_le (state_change_id saved)
            (ULID_issued (issued_state_changes (database (storage self)))).
Proof.
  induction 1 as [sm st|A self self1 body r _ IH Hcall
                  |self self1 qty r _ IH Hcall]; intros saved Hsaved.
  - discriminate.
  - destruct (scope_effect self self1 body r Hcall)
      as (d1 & rows & events & _ & Hsince & _ & _ & _ & _ & Hissued & Hr).
    destruct Hsince as (_ & _ & _ & _ & _ & _ & _ & Hle & Hids & _).
    simpl in Hle. rewrite Hissued.
    assert (Hold : forall old, saved_state self = Some old ->
                ulid_le (state_change_id old)
                  (ULID_issued
                     (issued_state_changes (database (dispatcher_storage d1))))).
    { intros old Hold. eapply ulid_le_trans; [now apply IH|].
      now apply ulid_le_issued. }
    destruct r as [a|e].
    + destruct Hr as (_ & _ & Hnew & _). rewrite Hnew in Hsaved.
      destruct (last_row_id rows) as [last_id|] eqn:Hrows; [|now apply Hold].
      destruct (current_state (dispatcher_state_manager d1)); [|discriminate].
      injection Hsaved as <-. simpl.
      destruct (last_row_id_in rows last_id Hrows) as (row & Hin & <-).
      rewrite Forall_forall in Hids.
      destruct (Hids row Hin) as (n & -> & _ & Hn). now apply ulid_le_issued.
    + destruct Hr as (_ & Hsame & _). apply Hold. now rewrite <- Hsame.
  - destruct (snapshot_tables self self1 qty r Hcall) as (Hissued & _).
    rewrite Hissued. apply IH.
    now rewrite <- (proj1 (proj2 (snapshot_keeps self self1 qty r Hcall))).
Qed.

(** X10.  On a log a program can hold, a commit scope never unassigns
    [saved_state] and never moves it back: after the scope it is what it
    was, or it carries a strictly greater identifier. *)
Theorem saved_state_only_advances {A : Type} (self self1 : Log')
  (body : Body' A) (r : result A) (saved : SavedState) :
  reachable self ->
  process_state_change_atomically self body = Some (r, self1) ->
  saved_state self = Some saved ->
  exists saved1,
    saved_state self1 = Some saved1 /\
    (saved1 = saved \/
     ulid_lt (state_change_id saved) (state_change_id saved1)).
Proof.
  intros Hreach Hcall Hsaved.
  pose proof (saved_state_issued self Hreach saved Hsaved) as Hissued.
  destruct (scope_effect self self1 body r Hcall)
    as (d1 & rows & events & _ & Hsince & _ & _ & _ & _ & _ & Hr).
  destruct Hsince as (_ & _ & _ & _ & _ & _ & _ & _ & Hids & _).
  simpl in Hids.
  destruct r as [a|e].
  - destruct Hr as (_ & _ & Hnew & Hcons).
    destruct (last_row_id rows) as [last_id|] eqn:Hrows.
    + destruct (current_state (dispatcher_state_manager d1)) as [current|].
      * exists (mkSavedState last_id current). split; [exact Hnew|].
        right. simpl.
        destruct (last_row_id_in rows last_id Hrows) as (row & Hin & <-).
        rewrite Forall_forall in Hids.
        destruct (Hids row Hin) as (n & -> & Hn & _).
        eapply ulid_le_lt_trans; [exact Hissued|]. now apply ulid_lt_issued.
      * exfalso. apply Hcons; [|reflexivity]. intros ->. discriminate.
    + exists saved. split; [now rewrite Hnew|now left].
  - destruct Hr as (_ & Hsame & _). exists saved.
    split; [now rewrite Hsame|now left].
Qed.

Lemma saved_state_last_row (self : Log') :
  reachable self ->
  saved_state self = None \/
  (staged (database (storage self)) = None /\
   exists saved,
     saved_state self = Some saved /\
     last_row_id (state_changes (durable (database (storage self)))) =
       Some (state_change_id saved)).
Proof.
  induction 1 as [sm st|A self self1 body r _ IH Hcall
                  |self self1 qty r _ IH Hcall].
  - now left.
  - destruct (scope_effect self self1 body r Hcall)
      as (d1 & rows & events & _ & _ & _ & _ & Hstaged & _ & _ & Hr).
    destruct r as [a|e].
    + destruct Hr as (_ & Hdurable & Hsaved & _).
      destruct (last_row_id rows) as [last_id|] eqn:Hrows.
      * destruct (current_state (dispatcher_state_manager d1)) as [current|];
          [|now left].
        right. split; [exact Hstaged|].
        exists (mkSavedState last_id current). split; [exact Hsaved|].
        rewrite Hdurable. simpl. now rewrite last_row_id_app, Hrows.
      * apply last_row_id_none in Hrows. subst rows.
        destruct IH as [Hnone|(Hrest & saved & Hsome & Hlast)];
          [left; now rewrite Hsaved|].
        right. split; [exact Hstaged|]. exists saved.
        split; [now rewrite Hsaved|].
        rewrite Hdurable. simpl. rewrite app_nil_r.
        unfold current_tables. now rewrite Hrest.
    + destruct Hr as (_ & Hsaved & Hdurable).
      destruct IH as [Hnone|(Hrest & saved & Hsome & Hlast)];
        [left; now rewrite Hsaved|].
      right. split; [exact Hstaged|]. exists saved.
      split; [now rewrite Hsaved|now rewrite Hdurable].
  - destruct (snapshot_keeps self self1 qty r Hcall) as (_ & Hsaved & _).
    destruct (snapshot_tables self self1 qty r Hcall) as (_ & _ & Htables).
    destruct IH as [Hnone|(Hrest & saved & Hsome & Hlast)];
      [left; now rewrite Hsaved|].
    destruct (Htables Hrest) as (Hrest1 & Hrows & _).
    right. split; [exact Hrest1|]. exists saved.
    split; [now rewrite Hsaved|now rewrite Hrows].
Qed.

(** X8.  On a log a program can hold, once [saved_state] is assigned it
    is in step with the storage and with the state manager: no
    transaction is open, the identifier it carries is the identifier of
    the last durable state change row, and the state it carries is the
    state [get_current_state] returns. *)
Theorem saved_state_is_last_durable_row (self : Log') (saved : SavedState) :
  reachable self ->
  saved_state self = Some saved ->
  staged (database (storage self)) = None /\
  last_row_id (state_changes (durable (database (storage self)))) =
    Some (state_change_id saved) /\
  get_current_state self = Some (state saved).
Proof.
  intros Hreach Hsome.
  destruct (saved_state_last_row self Hreach)
    as [Hnone|(Hrest & saved' & Hsome' & Hlast)]; [congruence|].
  rewrite Hsome in Hsome'. injection Hsome' as <-.
  split; [exact Hrest|]. split; [exact Hlast|].
  destruct (reachable_in_step self Hreach) as [_ Hstep].
  exact (Hstep saved Hsome).
Qed.

End ScopeMore.

(** * The semaphore is never leaked *)

Section GuardMore.

Context {State StateChange Event Payload : Type}.

Abbreviation Cfg' := (@Config State StateChange Event Payload).
Abbreviation Log3 := (@WriteAheadLog State StateChange Event Payload).
Abbreviation Task' := (@Task State StateChange Event).

Lemma guard_owned_step (c c1 : Cfg') (t : TaskId) :
  guard_owned c -> step c t = Some c1 -> guard_owned c1.
Proof.
  intros Howned Hstep. unfold step in Hstep.
  destruct (task_step (wal c) (tasks c t)) as [[self1 task1]|] eqn:Htask;
    [|discriminate].
  injection Hstep as <-. unfold guard_owned. simpl. intros Htaken.
  destruct (holds_guard (phase task1)) eqn:Hholds1.
  - exists t. now rewrite Nat.eqb_refl.
  - assert (Hsame : _lock (wal c) = true /\
                    holds_guard (phase (tasks c t)) = false).
    { unfold task_step in Htask.
      destruct (phase (tasks c t)) eqn:Hphase; simpl in Htask;
        repeat match goal with
               | H : match ?x with _ => _ end = Some _ |- _ =>
                   destruct x eqn:?; try discriminate
               | H : (let (_, _) := ?x in _) = Some _ |- _ =>
                   destruct x eqn:?
               end;
        injection Htask as <- <-; simpl in *;
        try match goal with
            | H : holds_guard (match ?x with _ => _ end) = false |- _ =>
                destruct x; simpl in H
            end;
        try congruence; now split. }
    destruct Hsame as [Hlock Hout].
    destruct (Howned Hlock) as (t' & Hholds').
    exists t'. destruct (Nat.eqb_spec t' t); [subst; congruence|exact Hholds'].
Qed.

Lemma guard_owned_run (schedule : list TaskId) (c : Cfg') :
  guard_owned c -> guard_owned (run_schedule schedule c).
Proof.
  revert c. induction schedule as [|t rest IH]; intros c Howned; simpl;
    [exact Howned|].
  destruct (step c t) as [c1|] eqn:Hstep; apply IH; [|exact Howned].
  now apply guard_owned_step with (c := c) (t := t).
Qed.

Lemma releases_run (n : nat) (self self1 : Log3) (task task1 : Task') :
  task_run n self task = (self1, task1) ->
  todo task1 = todo task -> outcomes task1 = outcomes task ->
  releases self1 task1 -> releases self task.
Proof.
  intros Hrun Htodo Houts (m & self2 & r & Hm & Hfree).
  exists (n + m)%nat, self2, r. split; [|exact Hfree].
  rewrite task_run_add, Hrun, Hm, Htodo, Houts. reflexivity.
Qed.

Lemma releases_releasing (self : Log3) (r : result unit)
  (rest : list Call) (outs : list (result unit)) :
  releases self (mkTask (Releasing r) rest outs).
Proof.
  exists 1%nat, (set_lock self false), r. split; reflexivity.
Qed.

Lemma releases_saving (self : Log3) (last : option StateChangeID)
  (rest : list Call) (outs : list (result unit)) :
  releases self (mkTask (Saving last) rest outs).
Proof.
  destruct last as [last_id|].
  - destruct (current_state (_state_manager self)) eqn:Hcurrent;
      (eapply (releases_run 1); [| | |apply releases_releasing];
       [unfold task_run, task_step; simpl; rewrite Hcurrent; reflexivity
       |reflexivity|reflexivity]).
  - eapply (releases_run 1); [| | |apply releases_releasing]; reflexivity.
Qed.

Lemma releases_closing (self : Log3) (r : result unit)
  (copied : StateManager) (last : option StateChangeID)
  (rest : list Call) (outs : list (result unit)) :
  releases self (mkTask (Closing r copied last) rest outs).
Proof.
  destruct r as [[]|e].
  - eapply (releases_run 2); [| | |apply releases_saving]; reflexivity.
  - eapply (releases_run 1); [| | |apply releases_releasing]; reflexivity.
Qed.

Lemma releases_yielded (self : Log3) (body : ScopeBody unit)
  (copied : StateManager) (last : option StateChangeID)
  (rest : list Call) (outs : list (result unit)) :
  releases self (mkTask (Yielded body copied last) rest outs).
Proof.
  destruct (run_body body (mkDispatcher copied (storage self) last))
    as [r d1] eqn:Hrun.
  destruct (yielded_run body self copied last rest outs r d1 Hrun) as (n & Hn).
  eapply (releases_run n); [exact Hn|reflexivity|reflexivity|].
  apply releases_closing.
Qed.

(** Whatever the phase in which a task holds the semaphore, its own
    steps bring it to the release. *)
Lemma holder_reaches_release (self : Log3) (task : Task') :
  holds_guard (phase task) = true -> releases self task.
Proof.
  destruct task as [p rest outs]. simpl.
  destruct p; simpl; intros Hholds; try discriminate.
  - eapply (releases_run 2); [| | |apply releases_yielded]; reflexivity.
  - eapply (releases_run 1); [| | |apply releases_yielded]; reflexivity.
  - apply releases_yielded.
  - eapply (releases_run 1); [| | |apply releases_yielded]; reflexivity.
  - apply releases_closing.
  - eapply (releases_run 1); [| | |apply releases_saving]; reflexivity.
  - apply releases_saving.
  - destruct (snapshot_block self statechange_qty) as [r self1] eqn:Hblock.
    eapply (releases_run 1); [| | |apply releases_releasing];
      [unfold task_run, task_step; simpl; rewrite Hblock; reflexivity
      |reflexivity|reflexivity].
  - apply releases_releasing.
Qed.

(** X11.  In every configuration a schedule leads to from the
    constructor, a taken semaphore has a holder, and the holder's own
    steps release it: scheduled alone for some number of steps, that
    task is idle again with one more outcome recorded, whether its scope
    returned or raised, and the semaphore is free. *)
Theorem semaphore_is_released (sm : StateManager)
  (st : @SerializedSQLiteStorage State StateChange Event Payload)
  (programs : TaskId -> list Call) (schedule : list TaskId) :
  let c := run_schedule schedule (initial_config sm st programs) in
  _lock (wal c) = true ->
  exists t n r,
    holds_guard (phase (tasks c t)) = true /\
    let c1 := run_schedule (repeat t n) c in
    _lock (wal c1) = false /\
    tasks c1 t = mkTask Idle (todo (tasks c t)) (r :: outcomes (tasks c t)) /\
    forall t', t' <> t -> tasks c1 t' = tasks c t'.
Proof.
  intros c Htaken.
  assert (Howned : guard_owned c).
  { apply guard_owned_run. intros Hlock. discriminate Hlock. }
  destruct (Howned Htaken) as (t & Hholds).
  destruct (holder_reaches_release (wal c) (tasks c t) Hholds)
    as (n & self1 & r & Hrun & Hfree).
  destruct (run_schedule_solo n t c) as (Hwal & Htask & Hothers).
  exists t, n, r. split; [exact Hholds|]. cbv zeta.
  rewrite Hwal, Htask, Hrun. simpl.
  split; [exact Hfree|]. split; [reflexivity|exact Hothers].
Qed.

End GuardMore.

(** * The further properties at work on the small instance *)

Module ExtraFacts.

Import Example.

(** The state change [0] is refused and the dispatcher is untouched. *)
Lemma refused_dispatch_witness :
  dispatch (yielded_dispatcher fresh_log) 0%Z =
    (Raise (Raised 7), yielded_dispatcher fresh_log) /\
  forall (A : Type) (k : result (list Z) -> @ScopeBody Z Z Z A),
    run_body (Dispatch 0%Z k) (yielded_dispatcher fresh_log) =
    run_body (k (Raise (Raised 7))) (yielded_dispatcher fresh_log).
Proof.
  apply (refused_dispatch_writes_nothing (yielded_dispatcher fresh_log) 0%Z
           (Raised 7)).
  reflexivity.
Defined.

(** After [two_changes], [saved_state] carries the identifier of the
    second row, the last one durable, and the state 18. *)
Lemma saved_state_last_row_witness :
  saved_state committed_log = Some (mkSavedState (ULID_issued 2) 18%Z) /\
  state_changes (durable (database (storage committed_log))) =
    [(ULID_issued 1, 5%Z); (ULID_issued 2, 3%Z)] /\
  staged (database (storage committed_log)) = None /\
  last_row_id (state_changes (durable (database (storage committed_log)))) =
    Some (ULID_issued 2) /\
  get_current_state committed_log = Some 18%Z.
Proof.
  split; [reflexivity|]. split; [reflexivity|].
  apply (saved_state_is_last_durable_row committed_log
           (mkSavedState (ULID_issued 2) 18%Z)
           ExampleFacts.committed_log_reachable).
  reflexivity.
Defined.

Lemma scope_without_rows_witness :
  exists self1,
    process_state_change_atomically fresh_log no_change = Some (Ok tt, self1) /\
    _state_manager self1 = _state_manager fresh_log /\
    saved_state self1 = saved_state fresh_log /\
    durable (database (storage self1)) =
      durable (database (storage fresh_log)) /\
    staged (database (storage self1)) = None.
Proof.
  eexists. split; [reflexivity|].
  eapply (scope_without_rows_changes_nothing fresh_log _ no_change (Ok tt));
    reflexivity.
Defined.

(** After [two_changes] both event rows carry the identifier of a
    durable state change row. *)
Lemma events_stay_tagged_witness :
  events_tagged (durable (database (storage committed_log))) /\
  staged (database (storage committed_log)) = None.
Proof.
  apply (events_stay_tagged fresh_log committed_log).
  - reflexivity.
  - constructor.
  - eapply evolves_scope with (body := two_changes) (r := Ok tt).
    + apply evolves_refl.
    + reflexivity.
Defined.

(** A third state change after [two_changes]: [saved_state] moves from
    the second identifier to the third. *)
Lemma saved_state_advances_witness :
  saved_state committed_log = Some (mkSavedState (ULID_issued 2) 18%Z) /\
  exists self1 saved1,
    process_state_change_atomically committed_log
      (dispatch_then 7%Z (fun _ => Done tt)) = Some (Ok tt, self1) /\
    saved_state self1 = Some saved1 /\
    (saved1 = mkSavedState (ULID_issued 2) 18%Z \/
     ulid_lt (ULID_issued 2) (state_change_id saved1)).
Proof.
  split; [reflexivity|].
  eexists.
  destruct (saved_state_only_advances committed_log _
              (dispatch_then 7%Z (fun _ => Done tt)) (Ok tt)
              (mkSavedState (ULID_issued 2) 18%Z)
              ExampleFacts.committed_log_reachable eq_refl eq_refl)
    as (saved1 & Hsaved1 & Hadvance).
  exists saved1. split; [reflexivity|]. split; [exact Hsaved1|exact Hadvance].
Defined.

(** The first task is inside its scope and the second one waits for
    the semaphore; left to run, the first task releases it. *)
Lemma semaphore_witness :
  let c := run_schedule [0; 0; 1; 1; 0]%nat
             (initial_config (mkStateManager transition (Some 10%Z))
                empty_storage programs) in
  _lock (wal c) = true /\
  exists t n r,
    holds_guard (phase (tasks c t)) = true /\
    let c1 := run_schedule (repeat t n) c in
    _lock (wal c1) = false /\
    tasks c1 t = mkTask Idle (todo (tasks c t)) (r :: outcomes (tasks c t)) /\
    forall t', t' <> t -> tasks c1 t' = tasks c t'.
Proof.
  split; [reflexivity|].
  apply (semaphore_is_released (mkStateManager transition (Some 10%Z))
           empty_storage programs [0; 0; 1; 1; 0]%nat).
  reflexivity.
Defined.

End ExtraFacts.
